(** * split_log.ts: a shallow embedding and its properties

    The development follows [src/buffs/cactbot/util/logtools/split_log.ts].
    The script is a Node program: it parses its arguments, scans the log
    once with an [EncounterCollector], and then replays the log through a
    [Splitter] and an [Anonymizer] into an output file.

    The script is embedded as a computation over an explicit program state
    (the console and stream calls made so far, the [exitCode] variable and
    the files on disk).  Every [process.exit], uncaught exception and
    never-settled [await] ends the computation with an [outcome].

    The classes the script imports ([Splitter], [Anonymizer],
    [EncounterCollector], [TLFuncs], [ConsoleNotifier], the argument parser)
    and the JavaScript [RegExp] engine are not part of the embedded file:
    they are parameters, given as interfaces.  So is the way readline
    receives the log in chunks. *)

From Stdlib Require Import ZArith String List Bool Lia.
From stdpp Require Import base tactics option list strings pretty gmap.

Local Open Scope string_scope.
Local Open Scope list_scope.
Local Open Scope Z_scope.

(** ** JavaScript values of the argument namespace *)

(** A field of the argparse namespace is [undefined], [null] or a value.
    The script tests fields against both [undefined] (line 65) and [null]
    (lines 52, 102, 195, 207), so the two are kept apart. *)
Inductive jsval (A : Type) : Type :=
| JSUndefined
| JSNull
| JSVal (a : A).
Arguments JSUndefined {A}.
Arguments JSNull {A}.
Arguments JSVal {A} a.

(** [v !== undefined] *)
Definition not_undefined {A} (v : jsval A) : bool :=
  match v with JSUndefined => false | _ => true end.

(** [v === null] *)
Definition is_null {A} (v : jsval A) : bool :=
  match v with JSNull => true | _ => false end.

(** [v ?? d] *)
Definition nullish {A} (v : jsval A) (d : A) : A :=
  match v with JSVal a => a | _ => d end.

(** [v === k] for a number [k] *)
Definition strict_eq_num (v : jsval Z) (k : Z) : bool :=
  match v with JSVal n => n =? k | _ => false end.

(** Truthiness of a numeric field: [undefined], [null] and [0] are falsy. *)
Definition truthy_num (v : jsval Z) : bool :=
  match v with JSVal n => negb (n =? 0) | _ => false end.

(** The numeric value used in [v - 1] once [v] is known to be truthy. *)
Definition num_of (v : jsval Z) : Z :=
  match v with JSVal n => n | _ => 0 end.

(** [arr[i]]: [undefined] outside the array. *)
Definition js_index {A} (arr : list A) (i : Z) : option A :=
  if decide (0 <= i) then arr !! Z.to_nat i else None.

(** [new RegExp(p, ...)] takes the empty pattern for [undefined] and the
    string conversion of anything else. *)
Definition pattern_of (v : jsval string) : string :=
  match v with
  | JSUndefined => ""
  | JSNull => "null"
  | JSVal p => p
  end.

(** ** The argument namespace (lines 13-25) *)

Record SplitLogArgs : Type := {
  file : jsval string;
  force : jsval bool;
  search_fights : jsval Z;
  search_zones : jsval Z;
  fight_regex : jsval string;
  zone_regex : jsval string;
  no_anonymize : jsval bool;
  analysis_filter : jsval bool
}.

Inductive argKey : Type :=
| key_search_fights
| key_search_zones
| key_fight_regex
| key_zone_regex.

(** lines 58-63 *)
Definition exclusiveArgs : list argKey :=
  [key_search_fights; key_search_zones; key_fight_regex; key_zone_regex].

(** [args[opt] !== undefined] (line 65) *)
Definition arg_not_undefined (args : SplitLogArgs) (opt : argKey) : bool :=
  match opt with
  | key_search_fights => not_undefined (search_fights args)
  | key_search_zones => not_undefined (search_zones args)
  | key_fight_regex => not_undefined (fight_regex args)
  | key_zone_regex => not_undefined (zone_regex args)
  end.

(** lines 57-67 *)
Definition numExclusiveArgs (args : SplitLogArgs) : Z :=
  fold_left (fun n opt => if arg_not_undefined args opt then n + 1 else n)
            exclusiveArgs 0.

(** ** Program state, events and outcomes *)

(** The [flags] of [fs.createWriteStream]: ['wx'] fails when the path
    exists, ['w'] creates or truncates. *)
Inductive openFlags : Type := flags_wx | flags_w.

(** The error a write stream reports when its file cannot be opened. *)
Inductive streamError : Type :=
| EEXIST (path : string).

Inductive event : Type :=
| EConsoleError (msg : string)
| EConsoleErrorObject (err : streamError)
| EPrintHelp
| ENotify (msg : string)
| EConsoleLog (msg : string)
| EPrintCollectedFights
| EPrintCollectedZones
| ECreateReadStream (path : jsval string)
| ECreateWriteStream (path : string) (flags : openFlags)
| ENewAnonymizer
| ENewSplitter (startLine endLine : string) (includeGlobals analysisFilter : bool)
| EOnLine (line : string)
| EWrite (path : string) (line : string)
| EWriterEnd (path : string)
| EWriterClose (path : string)
| EValidateIds
| EValidateLine (line : string).

Record state : Type := {
  trace : list event;
  exitCode : Z;
  files : gmap string (list string)
}.

(** How a run ends: [process.exit(code)]; an uncaught exception; or the
    event loop running dry, which is how Node ends a program whose
    remaining code waits on a promise that nothing will settle. *)
Inductive outcome : Type :=
| Exited (code : Z)
| Uncaught
| Drained.

Inductive res (A : Type) : Type :=
| Next (a : A) (s : state)
| Stop (o : outcome) (s : state).
Arguments Next {A} a s.
Arguments Stop {A} o s.

Definition proc (A : Type) : Type := state -> res A.

#[global] Instance proc_ret : MRet proc := fun A a s => Next a s.
#[global] Instance proc_bind : MBind proc := fun A B f m s =>
  match m s with
  | Next a s' => f a s'
  | Stop o s' => Stop o s'
  end.

Definition emit (e : event) : proc unit := fun s =>
  Next tt {| trace := trace s ++ [e]; exitCode := exitCode s; files := files s |}.

Definition process_exit {A} (code : Z) : proc A := fun s => Stop (Exited code) s.

Definition throw {A} : proc A := fun s => Stop Uncaught s.

Definition get_exitCode : proc Z := fun s => Next (exitCode s) s.

(** lines 47-50 *)
Definition printHelpAndError (errString : string) : proc unit :=
  emit (EConsoleError errString);; emit EPrintHelp.

(** lines 75-78 *)
Definition errorFunc (str : string) : proc unit := fun s =>
  Next tt {| trace := trace s ++ [EConsoleError str]; exitCode := 1; files := files s |}.

(** [errorFunc] at the [Error] object of a stream, as the handler of
    lines 104-108 calls it: [console.error] then prints the object, not a
    string of the script's. *)
Definition errorFunc_error (err : streamError) : proc unit := fun s =>
  Next tt {| trace := trace s ++ [EConsoleErrorObject err]; exitCode := 1;
             files := files s |}.

(** A report through the [ConsoleNotifier], which is built from
    [errorFunc] (line 94): the message is shown and the run is marked as
    failed.  The notifier's own formatting is not part of this file, hence
    the separate event. *)
Definition notify (msg : string) : proc unit := fun s =>
  Next tt {| trace := trace s ++ [ENotify msg]; exitCode := 1; files := files s |}.

Fixpoint notify_all (msgs : list string) : proc unit :=
  match msgs with
  | [] => mret tt
  | m :: rest => notify m;; notify_all rest
  end.

(** [fs.createReadStream(path)]: a path that is not a string raises at the
    call.  Otherwise the stream is returned at once, with the lines of the
    file as it is on disk at that moment, or [None] for a file that cannot
    be opened. *)
Definition createReadStream (path : jsval string) : proc (option (list string)) :=
  fun s =>
    let s' := {| trace := trace s ++ [ECreateReadStream path];
                 exitCode := exitCode s; files := files s |} in
    match path with
    | JSVal p => Next (files s !! p) s'
    | _ => Stop Uncaught s'
    end.

(** The lines of a stream once it is read.  A stream that cannot be opened
    emits ['error'], which neither readline nor the script handles. *)
Definition stream_lines (stream : option (list string)) : proc (list string) :=
  match stream with
  | Some content => mret content
  | None => throw
  end.

(** [fs.createWriteStream(path, { flags })]: [true] when the file could be
    opened (and is then empty), [false] when the stream reports an error. *)
Definition createWriteStream (path : string) (flags : openFlags) : proc bool := fun s =>
  let tr := trace s ++ [ECreateWriteStream path flags] in
  match flags, files s !! path with
  | flags_wx, Some _ =>
      Next false {| trace := tr; exitCode := exitCode s; files := files s |}
  | _, _ =>
      Next true {| trace := tr; exitCode := exitCode s; files := <[path := []]> (files s) |}
  end.

(** [writer.write(line); writer.write('\n')] (lines 126-127) *)
Definition writer_write (path : string) (line : string) : proc unit := fun s =>
  Next tt {| trace := trace s ++ [EWrite path line];
             exitCode := exitCode s;
             files := <[path := default [] (files s !! path) ++ [line]]> (files s) |}.

(** A promise is pending until its [resolve] or [reject] is called. *)
Inductive promise : Type := Pending | Fulfilled | Rejected.

(** [await p]: the rest of the async function runs once [p] is fulfilled,
    an exception is raised once it is rejected, and nothing more of the
    function runs if [p] stays pending. *)
Definition await (p : promise) : proc unit :=
  match p with
  | Fulfilled => mret tt
  | Rejected => throw
  | Pending => fun s => Stop Drained s
  end.

(** ** Interfaces of the imported classes *)

(** [encounter_tools.ts]: the collector, its fight and zone records and
    [TLFuncs.generateFileName]. *)
Class EncounterTools : Type := {
  Fight : Type;
  Zone : Type;
  fightName : Fight -> option string;
  sealName : Fight -> option string;
  fight_startLine : Fight -> option string;
  fight_endLine : Fight -> option string;
  zoneName : Zone -> option string;
  zone_startLine : Zone -> option string;
  zone_endLine : Zone -> option string;
  EncounterCollector : Type;
  new_EncounterCollector : EncounterCollector;
  collector_process : EncounterCollector -> string -> bool -> EncounterCollector;
  fights : EncounterCollector -> list Fight;
  zones : EncounterCollector -> list Zone;
  generateFileName : Fight + Zone -> string
}.

(** What [processWithCallback] does while it handles one line: it calls
    the callback on a line, or reports through the notifier. *)
Inductive splitterAction : Type :=
| Emit (line : string)
| Warn (msg : string).

(** [splitter.ts].  Modelled from the spec: the state DONE of the splitter
    is terminal, and feeding it further lines after DONE is a no-op
    ([done_is_final]); the class is not in the source tree. *)
Class SplitterClass : Type := {
  Splitter : Type;
  new_Splitter : string -> string -> bool -> bool -> Splitter;
  processWithCallback : Splitter -> string -> bool -> Splitter * list splitterAction;
  isDone : Splitter -> bool;
  done_is_final : forall splitter line isRestart,
    isDone splitter = true ->
    processWithCallback splitter line isRestart = (splitter, [])
}.

(** [anonymizer.ts]: every method may report through the notifier. *)
Class AnonymizerClass : Type := {
  Anonymizer : Type;
  new_Anonymizer : Anonymizer;
  anonymizer_process : Anonymizer -> string -> Anonymizer * option string * list string;
  validateIds : Anonymizer -> Anonymizer * list string;
  validateLine : Anonymizer -> string -> Anonymizer * list string
}.

(** The [RegExp] constructor (which raises on a malformed pattern) and
    [String.prototype.match], as a truth value. *)
Class RegExpEngine : Type := {
  RegExp : Type;
  new_RegExp : string -> string -> option RegExp;
  String_match : string -> RegExp -> bool
}.

(** [readline] on a read stream.  The stream hands its file over in
    chunks, and readline emits a ['line'] event for every line a chunk
    completes.  [close()] keeps further chunks from being read, but the
    ['line'] events of the chunk at hand still follow it.  When [close()]
    is called while the lines [unread] of [content] have not been emitted
    yet, [buffered content unread] is the number of them that the chunk at
    hand holds. *)
Class ReadlineClass : Type := {
  buffered : list string -> list string -> nat
}.

(** [s?.match(regex)] as a truth value *)
Definition optional_match `{RegExpEngine} (s : option string) (regex : RegExp) : bool :=
  match s with
  | Some str => String_match str regex
  | None => false
  end.

Module SplitLog.
Section Script.

Context `{ET : EncounterTools} `{SC : SplitterClass} `{AC : AnonymizerClass}
        `{RL : ReadlineClass} `{RE : RegExpEngine}.

(** The parsed arguments (lines 44-45). *)
Variable args : SplitLogArgs.

(** line 73 *)
Definition logFileName : jsval string := file args.

(** *** writeFile (lines 80-147) *)

(** The callback handed to [processWithCallback] (lines 117-128), on the
    anonymizer and the [lines] array of the enclosing [writeFile]. *)
Definition onSplitterLine (outputFile : string) (noAnonymize : bool)
    (line : string) (anonymizer : Anonymizer) (lines : list string)
  : proc (Anonymizer * list string) :=
  if negb noAnonymize then
    let '(anonymizer', anonLine, reports) := anonymizer_process anonymizer line in
    notify_all reports;;
    match anonLine with
    | None => mret (anonymizer', lines)
    | Some writeLine =>
        writer_write outputFile writeLine;;
        mret (anonymizer', lines ++ [writeLine])
    end
  else
    writer_write outputFile line;;
    mret (anonymizer, lines ++ [line]).

(** One call of [processWithCallback], replayed action by action. *)
Fixpoint runSplitterActions (outputFile : string) (noAnonymize : bool)
    (acts : list splitterAction) (anonymizer : Anonymizer) (lines : list string)
  : proc (Anonymizer * list string) :=
  match acts with
  | [] => mret (anonymizer, lines)
  | Emit line :: rest =>
      '(anonymizer', lines') ← onSplitterLine outputFile noAnonymize line anonymizer lines;
      runSplitterActions outputFile noAnonymize rest anonymizer' lines'
  | Warn msg :: rest =>
      notify msg;;
      runSplitterActions outputFile noAnonymize rest anonymizer lines
  end.

(** The ['line'] handler (lines 116-132) over the lines of the input, up
    to the call of [lineReader.close()] in line 131 or the end of the
    input.  The result has the splitter as it is then and the lines of
    the input that have not been emitted yet. *)
Fixpoint lineReader_lines (outputFile : string) (noAnonymize : bool)
    (input : list string) (splitter : Splitter) (anonymizer : Anonymizer)
    (lines : list string)
  : proc (Splitter * list string * Anonymizer * list string) :=
  match input with
  | [] => mret (splitter, [], anonymizer, lines)
  | line :: rest =>
      emit (EOnLine line);;
      let '(splitter', acts) := processWithCallback splitter line false in
      '(anonymizer', lines') ←
        runSplitterActions outputFile noAnonymize acts anonymizer lines;
      if isDone splitter' then mret (splitter', rest, anonymizer', lines')
      else lineReader_lines outputFile noAnonymize rest splitter' anonymizer' lines'
  end.

(** lines 140-141 *)
Fixpoint validateLines (anonymizer : Anonymizer) (lines : list string) : proc Anonymizer :=
  match lines with
  | [] => mret anonymizer
  | line :: rest =>
      emit (EValidateLine line);;
      let '(anonymizer', reports) := validateLine anonymizer line in
      notify_all reports;;
      validateLines anonymizer' rest
  end.

(** The ['close'] handler (lines 134-145).  It runs inside [close()],
    that is inside the ['line'] handler that calls it in line 131, or when
    the input has ended. *)
Definition lineReader_close (outputFile : string) (noAnonymize : bool)
    (anonymizer : Anonymizer) (lines : list string) : proc Anonymizer :=
  emit (EWriterEnd outputFile);;
  emit (EConsoleLog ("Wrote: " +:+ outputFile));;
  anonymizer'' ←
    (if negb noAnonymize then
       emit EValidateIds;;
       let '(anonymizer', reports) := validateIds anonymizer in
       notify_all reports;;
       validateLines anonymizer' lines
     else mret anonymizer);
  emit (EWriterClose outputFile);;
  mret anonymizer''.

(** The ['line'] handler (lines 116-132) over the lines that readline
    still emits after [close()]: those of the chunk at hand.  The handler
    is the same; its [lineReader.close()] finds the interface closed and
    does nothing.  The splitter is done by then, so by [done_is_final] it
    does not call the callback again, and nothing is written to the
    writer after [writer.end()]. *)
Fixpoint lineReader_buffered (outputFile : string) (noAnonymize : bool)
    (input : list string) (splitter : Splitter) (anonymizer : Anonymizer)
    (lines : list string) : proc unit :=
  match input with
  | [] => mret tt
  | line :: rest =>
      emit (EOnLine line);;
      let '(splitter', acts) := processWithCallback splitter line false in
      '(anonymizer', lines') ←
        runSplitterActions outputFile noAnonymize acts anonymizer lines;
      lineReader_buffered outputFile noAnonymize rest splitter' anonymizer' lines'
  end.

(** lines 80-147.  The executor of the promise never calls [resolve]; it
    calls [reject] only on a writer error, just before [process.exit(-1)].
    The promise that [writeFile] returns is therefore still pending when
    the reader has closed.

    The executor runs to its end before any stream event arrives, so the
    splitter is built before a failed open is reported (lines 104-108);
    the ['error'] event of a failed open is taken to arrive before the
    first ['line'] event, that of the reader before that of the writer.
    The handler of lines 104-108 passes the [Error] object of the stream
    to [errorFunc]. *)
Definition writeFile (outputFile : string) (startLine endLine : option string)
  : proc promise :=
  match startLine with
  | None => errorFunc "Error: missing startLine";; process_exit (-4)
  | Some startLine =>
  match endLine with
  | None => errorFunc "Error: missing endLine";; process_exit (-4)
  | Some endLine =>
      emit ENewAnonymizer;;
      let anonymizer := new_Anonymizer in
      stream ← createReadStream logFileName;
      let flags := if is_null (force args) then flags_wx else flags_w in
      opened ← createWriteStream outputFile flags;
      let includeGlobals := true in
      let analysisFilter := nullish (analysis_filter args) false in
      emit (ENewSplitter startLine endLine includeGlobals analysisFilter);;
      let splitter := new_Splitter startLine endLine includeGlobals analysisFilter in
      let noAnonymize := nullish (no_anonymize args) false in
      input ← stream_lines stream;
      if negb opened then
        errorFunc_error (EEXIST outputFile);;
        process_exit (-1)
      else
        '(splitter', unread, anonymizer', lines) ←
          lineReader_lines outputFile noAnonymize input splitter anonymizer [];
        anonymizer'' ← lineReader_close outputFile noAnonymize anonymizer' lines;
        lineReader_buffered outputFile noAnonymize
          (take (buffered input unread) unread) splitter' anonymizer'' lines;;
        mret Pending
  end
  end.

(** *** The main function (lines 150-219) *)

(** lines 151-161 *)
Definition makeCollectorFromPrepass (filename : jsval string) : proc EncounterCollector :=
  stream ← createReadStream filename;
  input ← stream_lines stream;
  mret (fold_left (fun collector line => collector_process collector line false)
                  input new_EncounterCollector).

(** The test of the loop body of lines 197-205: [true] when the body
    reaches [continue]. *)
Definition fight_skipped (regex : RegExp) (fight : Fight) : bool :=
  match sealName fight with
  | Some seal => if negb (String_match seal regex) then true else false
  | None => if negb (optional_match (fightName fight) regex) then true else false
  end.

(** lines 197-205 *)
Fixpoint fight_loop (regex : RegExp) (fs : list Fight) : proc unit :=
  match fs with
  | [] => mret tt
  | fight :: rest =>
      if fight_skipped regex fight then fight_loop regex rest
      else
        p ← writeFile (generateFileName (inl fight))
                      (fight_startLine fight) (fight_endLine fight);
        await p;;
        fight_loop regex rest
  end.

(** line 210 *)
Definition zone_skipped (regex : RegExp) (zone : Zone) : bool :=
  if negb (optional_match (zoneName zone) regex) then true else false.

(** lines 209-213 *)
Fixpoint zone_loop (regex : RegExp) (zs : list Zone) : proc unit :=
  match zs with
  | [] => mret tt
  | zone :: rest =>
      if zone_skipped regex zone then zone_loop regex rest
      else
        p ← writeFile (generateFileName (inr zone))
                      (zone_startLine zone) (zone_endLine zone);
        await p;;
        zone_loop regex rest
  end.

(** [new RegExp(pattern, 'i')] (lines 196, 208) *)
Definition make_regex (pattern : jsval string) : proc RegExp :=
  match new_RegExp (pattern_of pattern) "i" with
  | Some regex => mret regex
  | None => throw
  end.

(** lines 163-218, after the prepass *)
Definition dispatch (collector : EncounterCollector) : proc unit :=
  if strict_eq_num (search_fights args) (-1) then
    emit EPrintCollectedFights;; process_exit 0
  else if strict_eq_num (search_zones args) (-1) then
    emit EPrintCollectedZones;; process_exit 0
  else if truthy_num (search_fights args) then
    match js_index (fights collector) (num_of (search_fights args) - 1) with
    | None =>
        errorFunc ("Error: missing fight: " +:+ pretty (num_of (search_fights args)));;
        process_exit (-3)
    | Some fight =>
        p ← writeFile (generateFileName (inl fight))
                      (fight_startLine fight) (fight_endLine fight);
        await p;;
        code ← get_exitCode;
        process_exit code
    end
  else if truthy_num (search_zones args) then
    match js_index (zones collector) (num_of (search_zones args) - 1) with
    | None =>
        errorFunc ("Error: missing zone: " +:+ pretty (num_of (search_zones args)));;
        process_exit (-4)
    | Some zone =>
        p ← writeFile (generateFileName (inr zone))
                      (zone_startLine zone) (zone_endLine zone);
        await p;;
        code ← get_exitCode;
        process_exit code
    end
  else if negb (is_null (fight_regex args)) then
    regex ← make_regex (fight_regex args);
    fight_loop regex (fights collector);;
    code ← get_exitCode;
    process_exit code
  else if negb (is_null (zone_regex args)) then
    regex ← make_regex (zone_regex args);
    zone_loop regex (zones collector);;
    code ← get_exitCode;
    process_exit code
  else
    emit (EConsoleError "Internal error");;
    process_exit (-1).

(** The whole script, lines 52-219. *)
Definition script : proc unit :=
  if is_null (file args) then
    printHelpAndError "Error: Must specify -f
";;
    process_exit (-1)
  else if negb (numExclusiveArgs args =? 1) then
    printHelpAndError "Error: Must specify exactly one of -lf, -lz, or -fr
";;
    process_exit (-2)
  else
    collector ← makeCollectorFromPrepass logFileName;
    dispatch collector.

End Script.

(** The state a run starts from: nothing printed yet, [exitCode = 0]
    (line 74) and the given files on disk. *)
Definition initial (disk : gmap string (list string)) : state :=
  {| trace := []; exitCode := 0; files := disk |}.

(** How the process ends, and in which state.  When the async function
    itself returns, the process ends once the event loop is dry. *)
Definition ending {A} (r : res A) : outcome * state :=
  match r with
  | Next _ s => (Drained, s)
  | Stop o s => (o, s)
  end.

(** A run of the script on the given arguments and files. *)
Definition run `{EncounterTools} `{SplitterClass} `{AnonymizerClass} `{ReadlineClass}
    `{RegExpEngine}
    (args : SplitLogArgs) (disk : gmap string (list string)) : outcome * state :=
  ending (script args (initial disk)).

End SplitLog.

(** ** A small instance of the interfaces

    The theorems below hold for every implementation of the imported
    classes.  To run the script on concrete logs, this module gives one
    instance, over the illustrative log format of the specification:
    lines [ZoneChange:<name>], [FightStart:<name>], [FightEnd],
    [Global:...], [Boring:...], [Chat:...] and anything else. *)
Module Fixture.

Fixpoint strip_prefix (p s : string) : option string :=
  match p, s with
  | EmptyString, _ => Some s
  | String a p', String b s' => if Ascii.eqb a b then strip_prefix p' s' else None
  | String _ _, EmptyString => None
  end.

Definition has_prefix (p s : string) : bool :=
  match strip_prefix p s with Some _ => true | None => false end.

Fixpoint contains (p s : string) : bool :=
  has_prefix p s ||
  match s with
  | EmptyString => false
  | String _ s' => contains p s'
  end.

Record fight : Type := {
  f_fightName : option string;
  f_sealName : option string;
  f_startLine : option string;
  f_endLine : option string
}.

Record zone : Type := {
  z_zoneName : option string;
  z_startLine : option string;
  z_endLine : option string
}.

Record collector : Type := {
  c_fights : list fight;
  c_zones : list zone
}.

(** Sets the end line of the last record when it is still open. *)
Definition close_fight (line : string) (fs : list fight) : list fight :=
  match reverse fs with
  | last :: before =>
      match f_endLine last with
      | None => reverse before ++
                [{| f_fightName := f_fightName last; f_sealName := f_sealName last;
                    f_startLine := f_startLine last; f_endLine := Some line |}]
      | Some _ => fs
      end
  | [] => fs
  end.

Definition close_zone (line : string) (zs : list zone) : list zone :=
  match reverse zs with
  | last :: before =>
      match z_endLine last with
      | None => reverse before ++
                [{| z_zoneName := z_zoneName last;
                    z_startLine := z_startLine last; z_endLine := Some line |}]
      | Some _ => zs
      end
  | [] => zs
  end.

(** Modelled from the spec: [EncounterCollector.process] of
    encounter_tools.ts, which is not in the source tree.  A zone change
    closes the open zone and opens a new one; a fight start closes an open
    fight and opens a new one; a fight end closes the open fight. *)
Definition collect (c : collector) (line : string) (isRestart : bool) : collector :=
  match strip_prefix "ZoneChange:" line, strip_prefix "FightStart:" line with
  | Some name, _ =>
      {| c_fights := c_fights c;
         c_zones := close_zone line (c_zones c) ++
                    [{| z_zoneName := Some name; z_startLine := Some line;
                        z_endLine := None |}] |}
  | None, Some name =>
      {| c_fights := close_fight line (c_fights c) ++
                     [{| f_fightName := Some name; f_sealName := None;
                         f_startLine := Some line; f_endLine := None |}];
         c_zones := c_zones c |}
  | None, None =>
      if String.eqb line "FightEnd"
      then {| c_fights := close_fight line (c_fights c); c_zones := c_zones c |}
      else c
  end.

(** Modelled from the spec: [TLFuncs.generateFileName], which is not in
    the source tree: the record's name, or "unknown". *)
Definition file_name (r : fight + zone) : string :=
  match r with
  | inl f => default (default "unknown" (f_fightName f)) (f_sealName f) +:+ ".log"
  | inr z => default "unknown" (z_zoneName z) +:+ ".log"
  end.

Definition tools : EncounterTools := {|
  Fight := fight;
  Zone := zone;
  fightName := f_fightName;
  sealName := f_sealName;
  fight_startLine := f_startLine;
  fight_endLine := f_endLine;
  zoneName := z_zoneName;
  zone_startLine := z_startLine;
  zone_endLine := z_endLine;
  EncounterCollector := collector;
  new_EncounterCollector := {| c_fights := []; c_zones := [] |};
  collector_process := collect;
  fights := c_fights;
  zones := c_zones;
  generateFileName := file_name
|}.

Inductive phase : Type := BEFORE_RANGE | IN_RANGE | DONE.

Record splitter_state : Type := {
  sp_phase : phase;
  sp_start : string;
  sp_end : string;
  sp_globals : bool;
  sp_filter : bool
}.

Definition set_phase (ph : phase) (sp : splitter_state) : splitter_state :=
  {| sp_phase := ph; sp_start := sp_start sp; sp_end := sp_end sp;
     sp_globals := sp_globals sp; sp_filter := sp_filter sp |}.

(** Modelled from the spec: the emit rule of [processWithCallback] in
    splitter.ts, which is not in the source tree, on the line format of
    the scenario logs.  Inside the range a line is handed on unless the
    analysis filter rejects it; global lines pass the filter when they
    are included. *)
Definition keeps (sp : splitter_state) (line : string) : bool :=
  negb (sp_filter sp)
  || negb (has_prefix "Boring:" line || has_prefix "Global:" line)
  || (sp_globals sp && has_prefix "Global:" line).

(** Modelled from the spec: [Splitter.processWithCallback] of splitter.ts,
    which is not in the source tree: the state machine BEFORE_RANGE,
    IN_RANGE, DONE with exact-match boundaries, both inclusive. *)
Definition split (sp : splitter_state) (line : string) (isRestart : bool)
  : splitter_state * list splitterAction :=
  let out := if keeps sp line then [Emit line] else [] in
  match sp_phase sp with
  | BEFORE_RANGE =>
      if String.eqb line (sp_start sp) then (set_phase IN_RANGE sp, out) else (sp, [])
  | IN_RANGE =>
      if String.eqb line (sp_end sp) then (set_phase DONE sp, out) else (sp, out)
  | DONE => (sp, [])
  end.

(** [isDone], and the spec's requirement that feeding lines after DONE is
    a no-op, which [split] meets. *)
Definition is_done (sp : splitter_state) : bool :=
  match sp_phase sp with DONE => true | _ => false end.

Definition split_after_done (sp : splitter_state) (line : string) (isRestart : bool)
  : is_done sp = true -> split sp line isRestart = (sp, []) :=
  match sp as sp0
    return is_done sp0 = true -> split sp0 line isRestart = (sp0, []) with
  | {| sp_phase := ph; sp_start := a; sp_end := b; sp_globals := g; sp_filter := f |} =>
      match ph as ph0
        return is_done {| sp_phase := ph0; sp_start := a; sp_end := b;
                          sp_globals := g; sp_filter := f |} = true ->
               split {| sp_phase := ph0; sp_start := a; sp_end := b;
                        sp_globals := g; sp_filter := f |} line isRestart =
               ({| sp_phase := ph0; sp_start := a; sp_end := b;
                   sp_globals := g; sp_filter := f |}, []) with
      | DONE => fun _ => eq_refl
      | BEFORE_RANGE | IN_RANGE => fun H => ltac:(discriminate H)
      end
  end.

Definition splitters : SplitterClass := {|
  Splitter := splitter_state;
  new_Splitter := fun startLine endLine includeGlobals analysisFilter =>
    {| sp_phase := BEFORE_RANGE; sp_start := startLine; sp_end := endLine;
       sp_globals := includeGlobals; sp_filter := analysisFilter |};
  processWithCallback := split;
  isDone := is_done;
  done_is_final := split_after_done
|}.

(** Modelled from the spec: the [Anonymizer] of anonymizer.ts, which is
    not in the source tree.  Chat lines cannot be anonymized and are
    dropped; any other line gets a numbered pseudonym in front.  The
    post-pass reports a written line that carries no pseudonym. *)
Definition anonymize (count : nat) (line : string) : nat * option string * list string :=
  if has_prefix "Chat:" line then (count, None, [])
  else (S count, Some ("Player" +:+ pretty count +:+ "|" +:+ line), []).

Definition anonymizers : AnonymizerClass := {|
  Anonymizer := nat;
  new_Anonymizer := 0%nat;
  anonymizer_process := anonymize;
  validateIds := fun count => (count, []);
  validateLine := fun count line =>
    (count, if has_prefix "Player" line then [] else ["residual name: " +:+ line])
|}.

(** A stand-in for the [RegExp] engine: the pattern is a literal that
    matches wherever it occurs; the empty pattern matches every string. *)
Definition regexps : RegExpEngine := {|
  RegExp := string;
  new_RegExp := fun pattern flags => Some pattern;
  String_match := fun s regex => contains regex s
|}.

(** A log shorter than one chunk of the read stream (64 KiB unless the
    stream is told otherwise) arrives in one piece: every line not yet
    emitted is in the chunk at hand. *)
Definition readlines : ReadlineClass := {|
  buffered := fun content unread => length unread
|}.

(** The log of the specification's scenario, with a chat line added. *)
Definition scenario_log : list string :=
  ["ZoneChange:A"; "FightStart:Boss1"; "Hit"; "Chat:hello"; "FightEnd";
   "FightStart:Boss2"; "Hit"; "FightEnd"; "ZoneChange:B"].

(** A log whose only fight is still open when the file ends. *)
Definition open_log : list string :=
  ["ZoneChange:A"; "FightStart:Boss1"; "Hit"].

(** [-f log -lf n], with every other field left [undefined]. *)
Definition fight_index (n : Z) : SplitLogArgs := {|
  file := JSVal "log"; force := JSUndefined;
  search_fights := JSVal n; search_zones := JSUndefined;
  fight_regex := JSUndefined; zone_regex := JSUndefined;
  no_anonymize := JSUndefined; analysis_filter := JSUndefined
|}.

(** [-f log -lz n], with every other field left [undefined]. *)
Definition zone_index (n : Z) : SplitLogArgs := {|
  file := JSVal "log"; force := JSUndefined;
  search_fights := JSUndefined; search_zones := JSVal n;
  fight_regex := JSUndefined; zone_regex := JSUndefined;
  no_anonymize := JSUndefined; analysis_filter := JSUndefined
|}.

(** [-f log -fr pattern], with every other field left [undefined]. *)
Definition fight_pattern (pattern : string) : SplitLogArgs := {|
  file := JSVal "log"; force := JSUndefined;
  search_fights := JSUndefined; search_zones := JSUndefined;
  fight_regex := JSVal pattern; zone_regex := JSUndefined;
  no_anonymize := JSUndefined; analysis_filter := JSUndefined
|}.

(** [-f log -lf n], with every other field [null]. *)
Definition fight_index_nulls (n : Z) : SplitLogArgs := {|
  file := JSVal "log"; force := JSNull;
  search_fights := JSVal n; search_zones := JSNull;
  fight_regex := JSNull; zone_regex := JSNull;
  no_anonymize := JSNull; analysis_filter := JSNull
|}.

(** [-f log -lf n] with [force] given as [null] and the other fields left
    [undefined], and the same with [no_anonymize] set. *)
Definition fight_index_no_force (n : Z) : SplitLogArgs := {|
  file := JSVal "log"; force := JSNull;
  search_fights := JSVal n; search_zones := JSUndefined;
  fight_regex := JSUndefined; zone_regex := JSUndefined;
  no_anonymize := JSUndefined; analysis_filter := JSUndefined
|}.

Definition fight_index_verbatim (n : Z) : SplitLogArgs := {|
  file := JSVal "log"; force := JSUndefined;
  search_fights := JSVal n; search_zones := JSUndefined;
  fight_regex := JSUndefined; zone_regex := JSUndefined;
  no_anonymize := JSVal true; analysis_filter := JSUndefined
|}.

(** [-f log -lf n --force], with every other field left [undefined]. *)
Definition fight_index_force (n : Z) : SplitLogArgs := {|
  file := JSVal "log"; force := JSVal true;
  search_fights := JSVal n; search_zones := JSUndefined;
  fight_regex := JSUndefined; zone_regex := JSUndefined;
  no_anonymize := JSUndefined; analysis_filter := JSUndefined
|}.

(** The disk with the scenario log only, and with an older output file. *)
Definition scenario_disk : gmap string (list string) := {[ "log" := scenario_log ]}.

Definition disk_with_output : gmap string (list string) :=
  {[ "log" := scenario_log; "Boss1.log" := ["old"] ]}.

(** The fight that is still open at the end of [open_log]. *)
Definition open_fight : fight := {|
  f_fightName := Some "Boss1"; f_sealName := None;
  f_startLine := Some "FightStart:Boss1"; f_endLine := None
|}.

(** A fight as a record of the collector. *)
Definition fight_record (f : fight) : @Fight tools + @Zone tools := inl f.

(** A fight that has a seal name next to its fight name. *)
Definition sealed_fight : fight := {|
  f_fightName := Some "Boss1"; f_sealName := Some "The Gate";
  f_startLine := Some "FightStart:Boss1"; f_endLine := Some "FightEnd"
|}.

(** The collector after the prepass over a log. *)
Definition collected (input : list string) : collector :=
  fold_left (fun c line => collect c line false) input
            {| c_fights := []; c_zones := [] |}.

Definition run (args : SplitLogArgs) (disk : gmap string (list string))
  : outcome * state :=
  @SplitLog.run tools splitters anonymizers readlines regexps args disk.

(** [-f log -zr pattern], with every other field left [undefined]. *)
Definition zone_pattern (pattern : string) : SplitLogArgs := {|
  file := JSVal "log"; force := JSUndefined;
  search_fights := JSUndefined; search_zones := JSUndefined;
  fight_regex := JSUndefined; zone_regex := JSVal pattern;
  no_anonymize := JSUndefined; analysis_filter := JSUndefined
|}.





(** A [RegExp] stand-in that, unlike [regexps], rejects a pattern: an
    unbalanced parenthesis is a syntax error. *)
Definition checked_regexps : RegExpEngine := {|
  RegExp := string;
  new_RegExp := fun pattern flags =>
    if String.eqb pattern "(" then None else Some pattern;
  String_match := fun s regex => contains regex s
|}.

End Fixture.

(** ** Observations on runs *)

(** The state in which a computation stops or goes on. *)
Definition final {A} (r : res A) : state :=
  match r with
  | Next _ s => s
  | Stop _ s => s
  end.

(** The lines written to [path], in order. *)
Definition written (path : string) (tr : list event) : list string :=
  omap (fun e => match e with
                 | EWrite p line => if decide (p = path) then Some line else None
                 | _ => None
                 end) tr.

(** The lines passed to [validateLine], in order. *)
Definition validated (tr : list event) : list string :=
  omap (fun e => match e with EValidateLine line => Some line | _ => None end) tr.

(** The parameters of the splitters constructed, in order. *)
Definition splitters_built (tr : list event) : list (string * string * bool * bool) :=
  omap (fun e => match e with
                 | ENewSplitter startLine endLine g af => Some (startLine, endLine, g, af)
                 | _ => None
                 end) tr.

(** The paths of the write streams created, in order. *)
Definition streams_created (tr : list event) : list string :=
  omap (fun e => match e with ECreateWriteStream p _ => Some p | _ => None end) tr.

(** The events of the ['line'] handler: a line arrives, a line is
    written, the notifier reports. *)
Definition line_phase (e : event) : bool :=
  match e with
  | EOnLine _ | EWrite _ _ | ENotify _ => true
  | _ => false
  end.

(** The events of the post-pass over [lines]. *)
Definition validate_phase (e : event) : bool :=
  match e with
  | EValidateLine _ | ENotify _ => true
  | _ => false
  end.

(** The calls of the anonymizer's validation. *)
Definition is_validation (e : event) : bool :=
  match e with
  | EValidateIds | EValidateLine _ => true
  | _ => false
  end.

(** A line arrives from the input, or a line goes to the output. *)
Definition is_line_work (e : event) : bool :=
  match e with
  | EOnLine _ | EWrite _ _ => true
  | _ => false
  end.

(** The lines among the actions of one [processWithCallback] call. *)
Definition emitted (acts : list splitterAction) : list string :=
  omap (fun a => match a with Emit line => Some line | Warn _ => None end) acts.

(** The lines a splitter hands to its callback when it is fed [input]
    line by line until it is done. *)
Fixpoint splitter_output `{SplitterClass} (sp : Splitter) (input : list string)
  : list string :=
  match input with
  | [] => []
  | line :: rest =>
      let '(sp', acts) := processWithCallback sp line false in
      emitted acts ++ (if isDone sp' then [] else splitter_output sp' rest)
  end.

(** The anonymizer run over a sequence of lines: its last state and the
    strings it returned, with the lines it returned [undefined] for left
    out. *)
Fixpoint anonymize_lines `{AnonymizerClass} (an : Anonymizer) (ls : list string)
  : Anonymizer * list string :=
  match ls with
  | [] => (an, [])
  | line :: rest =>
      let '(an', anonLine, _) := anonymizer_process an line in
      let '(an'', out) := anonymize_lines an' rest in
      (an'', option_list anonLine ++ out)
  end.

(** What reaches the output file from the lines the splitter emits. *)
Definition output_lines `{AnonymizerClass} (noAnonymize : bool)
    (an : Anonymizer) (ls : list string) : Anonymizer * list string :=
  if noAnonymize then (an, ls) else anonymize_lines an ls.

(** The events the script itself can cause, by the place that causes
    them.  ['Internal error'] (line 216) is left out on purpose: see
    [internal_error_unreachable]. *)
Inductive writeFile_event : event -> Prop :=
| wf_missing_start : writeFile_event (EConsoleError "Error: missing startLine")
| wf_missing_end : writeFile_event (EConsoleError "Error: missing endLine")
| wf_writer_error f : writeFile_event (EConsoleErrorObject (EEXIST f))
| wf_anonymizer : writeFile_event ENewAnonymizer
| wf_read p : writeFile_event (ECreateReadStream p)
| wf_open p fl : writeFile_event (ECreateWriteStream p fl)
| wf_splitter startLine endLine af : writeFile_event (ENewSplitter startLine endLine true af)
| wf_line l : writeFile_event (EOnLine l)
| wf_write p l : writeFile_event (EWrite p l)
| wf_notify m : writeFile_event (ENotify m)
| wf_end p : writeFile_event (EWriterEnd p)
| wf_wrote p : writeFile_event (EConsoleLog ("Wrote: " +:+ p))
| wf_validateIds : writeFile_event EValidateIds
| wf_validateLine l : writeFile_event (EValidateLine l)
| wf_close p : writeFile_event (EWriterClose p).

(** After the selector check: [writeFile], the listings and the
    out-of-range reports. *)
Inductive dispatch_event : event -> Prop :=
| de_writeFile e : writeFile_event e -> dispatch_event e
| de_print_fights : dispatch_event EPrintCollectedFights
| de_print_zones : dispatch_event EPrintCollectedZones
| de_missing_fight (n : Z) :
    dispatch_event (EConsoleError ("Error: missing fight: " +:+ pretty n))
| de_missing_zone (n : Z) :
    dispatch_event (EConsoleError ("Error: missing zone: " +:+ pretty n)).

(** The whole script: the above and the usage errors of lines 52-71. *)
Inductive script_event : event -> Prop :=
| se_dispatch e : dispatch_event e -> script_event e
| se_no_file : script_event (EConsoleError "Error: Must specify -f
")
| se_not_one : script_event (EConsoleError "Error: Must specify exactly one of -lf, -lz, or -fr
")
| se_help : script_event EPrintHelp.

(** The messages printed with [console.error], in order. *)
Definition console_errors (tr : list event) : list string :=
  omap (fun e => match e with EConsoleError msg => Some msg | _ => None end) tr.

(** From [s] to [s'] only events of the ['line'] handler were added, and
    they wrote the lines [outl] to [out]. *)
Definition line_steps (out : string) (outl : list string) (s s' : state) : Prop :=
  exists evs,
    trace s' = trace s ++ evs /\
    Forall (fun e => line_phase e = true) evs /\
    written out evs = outl /\
    forall c, files s !! out = Some c -> files s' = <[out := c ++ outl]> (files s).

(** From [s] to [s'] only events of the post-pass were added, and
    [validateLine] was called on the lines [vl]. *)
Definition validate_steps (vl : list string) (s s' : state) : Prop :=
  exists evs,
    trace s' = trace s ++ evs /\
    Forall (fun e => validate_phase e = true) evs /\
    validated evs = vl /\
    files s' = files s.

(** An event other than the creation of a write stream. *)
Definition no_stream (e : event) : Prop := streams_created [e] = [].

(** [m] only appends events, at most [n] of them creations of a write
    stream. *)
Definition creates_at_most {A} (n : nat) (m : proc A) : Prop :=
  forall s, exists evs,
    trace (final (m s)) = trace s ++ evs /\ (length (streams_created evs) <= n)%nat.

(** [m] only appends events, and each of them satisfies [P]. *)
Definition adds {A} (P : event -> Prop) (m : proc A) : Prop :=
  forall s, exists evs, trace (final (m s)) = trace s ++ evs /\ Forall P evs.

(** The boundary lines of a fight or zone record. *)
Definition record_startLine `{EncounterTools} (r : Fight + Zone) : option string :=
  match r with
  | inl fight => fight_startLine fight
  | inr zone => zone_startLine zone
  end.

Definition record_endLine `{EncounterTools} (r : Fight + Zone) : option string :=
  match r with
  | inl fight => fight_endLine fight
  | inr zone => zone_endLine zone
  end.

(** The call [writeFile(TLFuncs.generateFileName(r), r.startLine, r.endLine)]
    of lines 181, 191, 204 and 212. *)
Definition writeFile_record `{EncounterTools} `{SplitterClass} `{AnonymizerClass}
    `{ReadlineClass}
    (args : SplitLogArgs) (r : Fight + Zone) : proc promise :=
  SplitLog.writeFile args (generateFileName r) (record_startLine r) (record_endLine r).

(** [writeFile] and [await] for each record of a list, one after the
    other: what the loops of lines 197-205 and 209-213 do with the
    records they do not skip. *)
Fixpoint write_each `{EncounterTools} `{SplitterClass} `{AnonymizerClass}
    `{ReadlineClass}
    (args : SplitLogArgs) (records : list (Fight + Zone)) : proc unit :=
  match records with
  | [] => mret tt
  | r :: rest =>
      p ← writeFile_record args r;
      await p;;
      write_each args rest
  end.

(** Lines 181-182 and 191-192: [writeFile] for the record, then
    [process.exit(exitCode)]. *)
Definition write_and_exit `{EncounterTools} `{SplitterClass} `{AnonymizerClass}
    `{ReadlineClass}
    (args : SplitLogArgs) (r : Fight + Zone) : proc unit :=
  p ← writeFile_record args r;
  await p;;
  code ← get_exitCode;
  process_exit code.

(** ** Further observations *)

(** The lines handed to the ['line'] handler, in order. *)
Definition on_lines (tr : list event) : list string :=
  omap (fun e => match e with EOnLine line => Some line | _ => None end) tr.

(** The splitter after it has been fed the given lines. *)
Definition splitter_after `{SplitterClass} (sp : Splitter) (lines : list string)
  : Splitter :=
  fold_left (fun sp line => (processWithCallback sp line false).1) lines sp.

(** The lines of the input that are handled before the reader is closed:
    those up to the first one after which the splitter is done. *)
Fixpoint lines_fed `{SplitterClass} (sp : Splitter) (input : list string)
  : list string :=
  match input with
  | [] => []
  | line :: rest =>
      line :: (if isDone (processWithCallback sp line false).1 then []
               else lines_fed (processWithCallback sp line false).1 rest)
  end.

(** The lines a splitter hands to its callback when it is fed every line
    of [input], also after it is done. *)
Fixpoint splitter_output_all `{SplitterClass} (sp : Splitter) (input : list string)
  : list string :=
  match input with
  | [] => []
  | line :: rest =>
      emitted (processWithCallback sp line false).2
      ++ splitter_output_all (processWithCallback sp line false).1 rest
  end.

(** The collector the prepass builds from the lines of the log. *)
Definition prepass_collector `{EncounterTools} (input : list string)
  : EncounterCollector :=
  fold_left (fun collector line => collector_process collector line false)
            input new_EncounterCollector.

(** The state of a run after the prepass over a log that could be read. *)
Definition after_prepass (f : string) (disk : gmap string (list string)) : state :=
  {| trace := [ECreateReadStream (JSVal f)]; exitCode := 0; files := disk |}.

(** The fight and zone records of a collector. *)
Definition all_records `{EncounterTools} (c : EncounterCollector) : list (Fight + Zone) :=
  (inl <$> fights c) ++ (inr <$> zones c).

(** The part of [writeFile] that follows the creation of the two streams
    (lines 110-146): the splitter, the handlers and what they do. *)
Definition writeFile_handlers `{SplitterClass} `{AnonymizerClass} `{ReadlineClass}
    (args : SplitLogArgs) (outputFile startLine endLine : string)
    (stream : option (list string)) (opened : bool) : proc promise :=
  emit (ENewSplitter startLine endLine true (nullish (analysis_filter args) false));;
  input ← stream_lines stream;
  if negb opened then
    errorFunc_error (EEXIST outputFile);;
    process_exit (-1)
  else
    '(splitter', unread, anonymizer', lines) ←
      SplitLog.lineReader_lines outputFile (nullish (no_anonymize args) false) input
        (new_Splitter startLine endLine true (nullish (analysis_filter args) false))
        new_Anonymizer [];
    anonymizer'' ←
      SplitLog.lineReader_close outputFile (nullish (no_anonymize args) false)
                                anonymizer' lines;
    SplitLog.lineReader_buffered outputFile (nullish (no_anonymize args) false)
      (take (buffered input unread) unread) splitter' anonymizer'' lines;;
    mret Pending.

(** [m] takes every state to one related to it by [R]. *)
Definition steps {A} (R : state -> state -> Prop) (m : proc A) : Prop :=
  forall s, R s (final (m s)).

(** Only events that satisfy [P] were added. *)
Definition adding (P : event -> Prop) (s s' : state) : Prop :=
  exists evs, trace s' = trace s ++ evs /\ Forall P evs.

(** No file but [out] has changed. *)
Definition others_kept (out : string) (s s' : state) : Prop :=
  forall p, p <> out -> files s' !! p = files s !! p.

(** Events were added, and no file has changed but those a write stream
    was created for. *)
Definition framed (s s' : state) : Prop :=
  exists evs,
    trace s' = trace s ++ evs /\
    forall p, p ∉ streams_created evs -> files s' !! p = files s !! p.

(** An event of a [writeFile] call for the output [out], the boundary
    lines [startLine] and [endLine] and the filter flag [af]: streams and
    writes are on [out], and they and the splitter come with both lines
    defined. *)
Definition for_output (out : string) (startLine endLine : option string)
    (af : bool) (e : event) : Prop :=
  match e with
  | ECreateWriteStream p _ => p = out /\ is_Some startLine /\ is_Some endLine
  | ENewSplitter sl el g a =>
      startLine = Some sl /\ endLine = Some el /\ g = true /\ a = af
  | EWrite p _ | EWriterEnd p | EWriterClose p => p = out
  | _ => True
  end.

(** An event that some record of the collector accounts for. *)
Definition from_records `{EncounterTools} (args : SplitLogArgs)
    (c : EncounterCollector) (e : event) : Prop :=
  match e with
  | ECreateWriteStream _ _ | ENewSplitter _ _ _ _
  | EWrite _ _ | EWriterEnd _ | EWriterClose _ =>
      exists r, r ∈ all_records c /\
                for_output (generateFileName r) (record_startLine r)
                           (record_endLine r)
                           (nullish (analysis_filter args) false) e
  | _ => True
  end.

(** The writer is ended or closed. *)
Definition is_writer_end (e : event) : bool :=
  match e with
  | EWriterEnd _ | EWriterClose _ => true
  | _ => false
  end.

(** A line is written. *)
Definition is_write (e : event) : bool :=
  match e with
  | EWrite _ _ => true
  | _ => false
  end.

(** ** Which events a computation can add *)

Section Adds.

Context {A B : Type}.
Implicit Types (P Q : event -> Prop).

Lemma adds_weaken P Q (m : proc A) :
  (forall e, P e -> Q e) -> adds P m -> adds Q m.
Proof.
  intros HPQ Hm s. destruct (Hm s) as (evs & Htr & Hall).
  exists evs. split; [done|]. eapply Forall_impl; eauto.
Qed.

Lemma adds_ret P (a : A) : adds P (mret a).
Proof. intros s. exists []. by rewrite app_nil_r. Qed.

Lemma adds_bind P (m : proc A) (f : A -> proc B) :
  adds P m -> (forall a, adds P (f a)) -> adds P (m ≫= f).
Proof.
  intros Hm Hf s. unfold mbind, proc_bind.
  destruct (Hm s) as (evs1 & Htr1 & Hall1).
  destruct (m s) as [a s1|o s1]; simpl in *.
  - destruct (Hf a s1) as (evs2 & Htr2 & Hall2).
    exists (evs1 ++ evs2). rewrite Htr2, Htr1, (assoc_L (++)).
    split; [done|]. by apply Forall_app.
  - by exists evs1.
Qed.

Lemma adds_process_exit P code : adds P (process_exit (A := A) code).
Proof. intros s. exists []. by rewrite app_nil_r. Qed.

Lemma adds_throw P : adds P (throw (A := A)).
Proof. intros s. exists []. by rewrite app_nil_r. Qed.

End Adds.

Lemma adds_emit (P : event -> Prop) e : P e -> adds P (emit e).
Proof. intros He s. exists [e]. split; [done|]. by constructor. Qed.

Lemma adds_errorFunc (P : event -> Prop) str :
  P (EConsoleError str) -> adds P (errorFunc str).
Proof. intros He s. exists [EConsoleError str]. split; [done|]. by constructor. Qed.

Lemma adds_errorFunc_error (P : event -> Prop) err :
  P (EConsoleErrorObject err) -> adds P (errorFunc_error err).
Proof. intros He s. exists [EConsoleErrorObject err]. split; [done|]. by constructor. Qed.

Lemma adds_notify (P : event -> Prop) msg : P (ENotify msg) -> adds P (notify msg).
Proof. intros He s. exists [ENotify msg]. split; [done|]. by constructor. Qed.

Lemma adds_notify_all (P : event -> Prop) msgs :
  (forall m, P (ENotify m)) -> adds P (notify_all msgs).
Proof.
  intros He. induction msgs as [|m rest IH]; simpl.
  - apply adds_ret.
  - apply adds_bind; [by apply adds_notify | done].
Qed.

Lemma adds_createReadStream (P : event -> Prop) path :
  P (ECreateReadStream path) -> adds P (createReadStream path).
Proof.
  intros He s. exists [ECreateReadStream path].
  split; [|by constructor].
  unfold createReadStream. by destruct path.
Qed.

Lemma adds_stream_lines (P : event -> Prop) stream : adds P (stream_lines stream).
Proof. destruct stream; [apply adds_ret | apply adds_throw]. Qed.

Lemma adds_createWriteStream (P : event -> Prop) path flags :
  P (ECreateWriteStream path flags) -> adds P (createWriteStream path flags).
Proof.
  intros He s. exists [ECreateWriteStream path flags].
  split; [|by constructor].
  unfold createWriteStream. destruct flags; try done.
  by destruct (files s !! path).
Qed.

Lemma adds_writer_write (P : event -> Prop) path line :
  P (EWrite path line) -> adds P (writer_write path line).
Proof. intros He s. exists [EWrite path line]. split; [done|]. by constructor. Qed.

Lemma adds_await (P : event -> Prop) p : adds P (await p).
Proof.
  destruct p; simpl; [|apply adds_ret|apply adds_throw].
  intros s. exists []. by rewrite app_nil_r.
Qed.

Lemma adds_get_exitCode (P : event -> Prop) : adds P get_exitCode.
Proof. intros s. exists []. by rewrite app_nil_r. Qed.

Lemma adds_printHelpAndError (P : event -> Prop) msg :
  P (EConsoleError msg) -> P EPrintHelp -> adds P (printHelpAndError msg).
Proof. intros. apply adds_bind; [|intros _]; by apply adds_emit. Qed.

(** One step of a proof that a computation adds only events of a kind. *)
Ltac adds_step :=
  first
    [ apply adds_ret | apply adds_process_exit | apply adds_throw
    | apply adds_await | apply adds_get_exitCode
    | apply adds_emit | apply adds_errorFunc | apply adds_errorFunc_error
    | apply adds_notify
    | apply adds_notify_all | apply adds_createReadStream | apply adds_stream_lines
    | apply adds_createWriteStream | apply adds_writer_write
    | apply adds_bind; [|intros ?] ].

Section ScriptEvents.

Context `{ET : EncounterTools} `{SC : SplitterClass} `{AC : AnonymizerClass}
        `{RL : ReadlineClass} `{RE : RegExpEngine}.
Variable args : SplitLogArgs.

Local Hint Constructors writeFile_event : core.

Lemma adds_onSplitterLine out na line an lines :
  adds writeFile_event (SplitLog.onSplitterLine out na line an lines).
Proof.
  unfold SplitLog.onSplitterLine. destruct (negb na).
  - destruct (anonymizer_process an line) as [[an' [w|]] reports];
      repeat adds_step; auto.
  - repeat adds_step; auto.
Qed.

Lemma adds_runSplitterActions out na acts an lines :
  adds writeFile_event (SplitLog.runSplitterActions out na acts an lines).
Proof.
  revert an lines. induction acts as [|[line|msg] rest IH]; intros an lines; simpl.
  - apply adds_ret.
  - apply adds_bind; [apply adds_onSplitterLine|]. intros [an' lines']. apply IH.
  - apply adds_bind; [adds_step; auto|]. intros _. apply IH.
Qed.

Lemma adds_lineReader_lines out na input sp an lines :
  adds writeFile_event (SplitLog.lineReader_lines out na input sp an lines).
Proof.
  revert sp an lines. induction input as [|line rest IH]; intros sp an lines; simpl.
  - apply adds_ret.
  - apply adds_bind; [adds_step; auto|]. intros _.
    destruct (processWithCallback sp line false) as [sp' acts].
    apply adds_bind; [apply adds_runSplitterActions|]. intros [an' lines'].
    destruct (isDone sp'); [apply adds_ret | apply IH].
Qed.

Lemma adds_lineReader_buffered out na input sp an lines :
  adds writeFile_event (SplitLog.lineReader_buffered out na input sp an lines).
Proof.
  revert sp an lines. induction input as [|line rest IH]; intros sp an lines; simpl.
  - apply adds_ret.
  - apply adds_bind; [adds_step; auto|]. intros _.
    destruct (processWithCallback sp line false) as [sp' acts].
    apply adds_bind; [apply adds_runSplitterActions|]. intros [an' lines'].
    apply IH.
Qed.

Lemma adds_validateLines an lines :
  adds writeFile_event (SplitLog.validateLines an lines).
Proof.
  revert an. induction lines as [|line rest IH]; intros an; simpl.
  - apply adds_ret.
  - apply adds_bind; [adds_step; auto|]. intros _.
    destruct (validateLine an line) as [an' reports].
    apply adds_bind; [adds_step; auto|]. intros _. apply IH.
Qed.

Lemma adds_lineReader_close out na an lines :
  adds writeFile_event (SplitLog.lineReader_close out na an lines).
Proof.
  unfold SplitLog.lineReader_close.
  do 2 (apply adds_bind; [adds_step; auto|]; intros _).
  apply adds_bind; [|intros an''; repeat adds_step; auto].
  destruct (negb na); [|apply adds_ret].
  apply adds_bind; [adds_step; auto|]. intros _.
  destruct (validateIds an) as [an' reports].
  apply adds_bind; [adds_step; auto|]. intros _.
  apply adds_validateLines.
Qed.

Lemma adds_writeFile out startLine endLine :
  adds writeFile_event (SplitLog.writeFile args out startLine endLine).
Proof.
  unfold SplitLog.writeFile.
  destruct startLine as [startLine|]; [|repeat adds_step; auto].
  destruct endLine as [endLine|]; [|repeat adds_step; auto].
  apply adds_bind; [adds_step; auto|]. intros _.
  apply adds_bind; [adds_step; auto|]. intros stream.
  apply adds_bind; [adds_step; auto|]. intros opened.
  apply adds_bind; [adds_step; auto|]. intros _.
  apply adds_bind; [adds_step|]. intros input.
  destruct (negb opened); [repeat adds_step; auto|].
  apply adds_bind; [apply adds_lineReader_lines|]. intros [[[sp' unread] an'] lines].
  apply adds_bind; [apply adds_lineReader_close|]. intros an''.
  apply adds_bind; [apply adds_lineReader_buffered|]. intros _. apply adds_ret.
Qed.

Lemma adds_write_each records :
  adds writeFile_event (write_each args records).
Proof.
  induction records as [|r rest IH]; simpl; [apply adds_ret|].
  apply adds_bind; [apply adds_writeFile|]. intros p.
  apply adds_bind; [apply adds_await|]. by intros _.
Qed.

End ScriptEvents.

(** ** The loops and the dispatch *)

Section Dispatch.

Context `{ET : EncounterTools} `{SC : SplitterClass} `{AC : AnonymizerClass}
        `{RL : ReadlineClass} `{RE : RegExpEngine}.
Variable args : SplitLogArgs.

Lemma fight_loop_write_each regex fs s :
  SplitLog.fight_loop args regex fs s =
  write_each args
    (inl <$> filter (fun f => SplitLog.fight_skipped regex f = false) fs) s.
Proof.
  revert s. induction fs as [|fight rest IH]; intros s; [done|].
  simpl. rewrite filter_cons.
  destruct (SplitLog.fight_skipped regex fight) eqn:Hskip.
  - rewrite decide_False by done. apply IH.
  - rewrite decide_True by done. simpl.
    unfold writeFile_record, record_startLine, record_endLine, mbind, proc_bind.
    destruct (SplitLog.writeFile _ _ _ _ s) as [p s1|]; [|done].
    destruct (await p s1); [apply IH | done].
Qed.

Lemma zone_loop_write_each regex zs s :
  SplitLog.zone_loop args regex zs s =
  write_each args
    (inr <$> filter (fun z => SplitLog.zone_skipped regex z = false) zs) s.
Proof.
  revert s. induction zs as [|zone rest IH]; intros s; [done|].
  simpl. rewrite filter_cons.
  destruct (SplitLog.zone_skipped regex zone) eqn:Hskip.
  - rewrite decide_False by done. apply IH.
  - rewrite decide_True by done. simpl.
    unfold writeFile_record, record_startLine, record_endLine, mbind, proc_bind.
    destruct (SplitLog.writeFile _ _ _ _ s) as [p s1|]; [|done].
    destruct (await p s1); [apply IH | done].
Qed.

Lemma adds_fight_loop regex fs :
  adds writeFile_event (SplitLog.fight_loop args regex fs).
Proof.
  intros s. rewrite fight_loop_write_each. apply adds_write_each.
Qed.

Lemma adds_zone_loop regex zs :
  adds writeFile_event (SplitLog.zone_loop args regex zs).
Proof.
  intros s. rewrite zone_loop_write_each. apply adds_write_each.
Qed.

Lemma adds_make_regex (P : event -> Prop) pattern :
  adds P (SplitLog.make_regex pattern).
Proof.
  unfold SplitLog.make_regex.
  destruct (new_RegExp _ _); [apply adds_ret | apply adds_throw].
Qed.

(** A selector that is [null] is counted by the check of line 65, so the
    check fails when both regex selectors are [null]. *)
Lemma one_selector_not_both_null :
  numExclusiveArgs args = 1 ->
  is_null (fight_regex args) = true ->
  is_null (zone_regex args) = true ->
  False.
Proof.
  unfold numExclusiveArgs. simpl.
  destruct (fight_regex args), (zone_regex args); try done.
  destruct (search_fights args), (search_zones args); simpl; lia.
Qed.

Local Hint Constructors writeFile_event dispatch_event script_event : core.

Lemma adds_dispatch collector :
  numExclusiveArgs args = 1 ->
  adds dispatch_event (SplitLog.dispatch args collector).
Proof.
  intros Hone. unfold SplitLog.dispatch.
  destruct (strict_eq_num (search_fights args) (-1)); [repeat adds_step; auto|].
  destruct (strict_eq_num (search_zones args) (-1)); [repeat adds_step; auto|].
  destruct (truthy_num (search_fights args)).
  { destruct (js_index _ _); [|repeat adds_step; auto].
    apply adds_bind; [|intros p; repeat adds_step].
    eapply adds_weaken; [|apply adds_writeFile]. auto. }
  destruct (truthy_num (search_zones args)).
  { destruct (js_index _ _); [|repeat adds_step; auto].
    apply adds_bind; [|intros p; repeat adds_step].
    eapply adds_weaken; [|apply adds_writeFile]. auto. }
  destruct (is_null (fight_regex args)) eqn:Hfr; simpl.
  2:{ apply adds_bind; [apply adds_make_regex|]. intros regex.
      apply adds_bind; [|intros _; repeat adds_step].
      eapply adds_weaken; [|apply adds_fight_loop]. auto. }
  destruct (is_null (zone_regex args)) eqn:Hzr; simpl.
  2:{ apply adds_bind; [apply adds_make_regex|]. intros regex.
      apply adds_bind; [|intros _; repeat adds_step].
      eapply adds_weaken; [|apply adds_zone_loop]. auto. }
  destruct (one_selector_not_both_null Hone Hfr Hzr).
Qed.

Lemma adds_makeCollectorFromPrepass filename :
  adds dispatch_event (SplitLog.makeCollectorFromPrepass filename).
Proof.
  unfold SplitLog.makeCollectorFromPrepass. repeat adds_step; auto.
Qed.

Lemma adds_script : adds script_event (SplitLog.script args).
Proof.
  unfold SplitLog.script.
  destruct (is_null (file args)).
  { apply adds_bind; [apply adds_printHelpAndError; auto|]. intros _. adds_step. }
  destruct (numExclusiveArgs args =? 1) eqn:Hone; simpl.
  2:{ apply adds_bind; [apply adds_printHelpAndError; auto|]. intros _. adds_step. }
  apply Z.eqb_eq in Hone.
  eapply adds_weaken; [apply se_dispatch|].
  apply adds_bind; [apply adds_makeCollectorFromPrepass|]. intros collector.
  by apply adds_dispatch.
Qed.

(** Every event of a run is one the script can cause. *)
Lemma run_events disk : Forall script_event (trace (SplitLog.run args disk).2).
Proof.
  destruct (adds_script (SplitLog.initial disk)) as (evs & Htr & Hall).
  unfold SplitLog.run, SplitLog.ending.
  destruct (SplitLog.script args (SplitLog.initial disk)); simpl in *;
    by rewrite Htr.
Qed.

End Dispatch.

(** ** What [writeFile] writes *)

Lemma written_app out tr1 tr2 :
  written out (tr1 ++ tr2) = written out tr1 ++ written out tr2.
Proof. apply omap_app. Qed.

Lemma validated_app tr1 tr2 :
  validated (tr1 ++ tr2) = validated tr1 ++ validated tr2.
Proof. apply omap_app. Qed.

Lemma line_steps_refl out s : line_steps out [] s s.
Proof.
  exists []. rewrite app_nil_r. repeat split; [by constructor|].
  intros c Hc. rewrite app_nil_r. symmetry. by apply insert_id.
Qed.

Lemma line_steps_trans out l1 l2 s s1 s2 :
  line_steps out l1 s s1 -> line_steps out l2 s1 s2 ->
  line_steps out (l1 ++ l2) s s2.
Proof.
  intros (evs1 & Htr1 & Hph1 & Hw1 & Hf1) (evs2 & Htr2 & Hph2 & Hw2 & Hf2).
  exists (evs1 ++ evs2). repeat split.
  - by rewrite Htr2, Htr1, (assoc_L (++)).
  - by apply Forall_app.
  - by rewrite written_app, Hw1, Hw2.
  - intros c Hc. rewrite (Hf2 (c ++ l1)).
    + by rewrite (Hf1 c Hc), insert_insert_eq, (assoc_L (++)).
    + rewrite (Hf1 c Hc). apply lookup_insert_eq.
Qed.

Lemma line_steps_notify out msg s :
  exists s', notify msg s = Next tt s' /\ line_steps out [] s s'.
Proof.
  eexists. split; [done|]. exists [ENotify msg]. simpl.
  repeat split; [by repeat constructor|].
  intros c Hc. rewrite app_nil_r. symmetry. by apply insert_id.
Qed.

Lemma line_steps_notify_all out msgs s :
  exists s', notify_all msgs s = Next tt s' /\ line_steps out [] s s'.
Proof.
  revert s. induction msgs as [|m rest IH]; intros s; simpl.
  - exists s. split; [done|]. apply line_steps_refl.
  - unfold mbind, proc_bind.
    destruct (line_steps_notify out m s) as (s1 & -> & H1).
    destruct (IH s1) as (s2 & -> & H2).
    exists s2. split; [done|]. apply (line_steps_trans _ [] [] _ _ _ H1 H2).
Qed.

Lemma line_steps_emit_line out line s :
  exists s', emit (EOnLine line) s = Next tt s' /\ line_steps out [] s s'.
Proof.
  eexists. split; [done|]. exists [EOnLine line]. simpl.
  repeat split; [by repeat constructor|].
  intros c Hc. rewrite app_nil_r. symmetry. by apply insert_id.
Qed.

Lemma line_steps_write out line s :
  exists s', writer_write out line s = Next tt s' /\ line_steps out [line] s s'.
Proof.
  eexists. split; [done|]. exists [EWrite out line]. simpl.
  repeat split.
  - by repeat constructor.
  - unfold written. simpl. by rewrite decide_True.
  - intros c Hc. by rewrite Hc.
Qed.

Lemma on_lines_app tr1 tr2 : on_lines (tr1 ++ tr2) = on_lines tr1 ++ on_lines tr2.
Proof. apply omap_app. Qed.

Lemma no_on_lines tr : Forall (fun e => on_lines [e] = []) tr -> on_lines tr = [].
Proof.
  induction 1 as [|e tr He _ IH]; [done|].
  change (e :: tr) with ([e] ++ tr). by rewrite on_lines_app, He, IH.
Qed.

#[local] Arguments writer_write : simpl never.
#[local] Arguments notify : simpl never.
#[local] Arguments emit : simpl never.
#[local] Arguments errorFunc : simpl never.

Section WriteFile.

Context `{ET : EncounterTools} `{SC : SplitterClass} `{AC : AnonymizerClass}
        `{RL : ReadlineClass} `{RE : RegExpEngine}.
Variable args : SplitLogArgs.

Lemma anonymize_lines_app an l1 l2 :
  anonymize_lines an (l1 ++ l2) =
  ((anonymize_lines (anonymize_lines an l1).1 l2).1,
   (anonymize_lines an l1).2 ++ (anonymize_lines (anonymize_lines an l1).1 l2).2).
Proof.
  revert an. induction l1 as [|line rest IH]; intros an; simpl.
  - by destruct (anonymize_lines an l2).
  - destruct (anonymizer_process an line) as [[an' anonLine] reports].
    rewrite IH.
    destruct (anonymize_lines an' rest) as [an1 out1]. simpl.
    by rewrite (assoc_L (++)).
Qed.

Lemma output_lines_app na an l1 l2 :
  output_lines na an (l1 ++ l2) =
  ((output_lines na (output_lines na an l1).1 l2).1,
   (output_lines na an l1).2 ++ (output_lines na (output_lines na an l1).1 l2).2).
Proof.
  unfold output_lines. destruct na; [done|]. apply anonymize_lines_app.
Qed.

Lemma output_lines_nil na an : output_lines na an [] = (an, []).
Proof. by destruct na. Qed.

Lemma onSplitterLine_steps out na line an lines s :
  exists s',
    SplitLog.onSplitterLine out na line an lines s =
      Next ((output_lines na an [line]).1, lines ++ (output_lines na an [line]).2) s' /\
    line_steps out (output_lines na an [line]).2 s s'.
Proof.
  unfold SplitLog.onSplitterLine, output_lines. destruct na; simpl.
  - unfold mbind, proc_bind.
    destruct (line_steps_write out line s) as (s1 & -> & H1). by exists s1.
  - destruct (anonymizer_process an line) as [[an' anonLine] reports]. simpl.
    unfold mbind, proc_bind.
    destruct (line_steps_notify_all out reports s) as (s1 & -> & H1).
    destruct anonLine as [writeLine|]; cbn.
    + destruct (line_steps_write out writeLine s1) as (s2 & -> & H2).
      exists s2. split; [done|].
      apply (line_steps_trans _ [] [writeLine] _ _ _ H1 H2).
    + exists s1. by rewrite app_nil_r.
Qed.

Lemma runSplitterActions_steps out na acts an lines s :
  exists s',
    SplitLog.runSplitterActions out na acts an lines s =
      Next ((output_lines na an (emitted acts)).1,
            lines ++ (output_lines na an (emitted acts)).2) s' /\
    line_steps out (output_lines na an (emitted acts)).2 s s'.
Proof.
  revert an lines s.
  induction acts as [|[line|msg] rest IH]; intros an lines s; simpl.
  - exists s. rewrite output_lines_nil. simpl. rewrite app_nil_r.
    split; [done|]. apply line_steps_refl.
  - unfold mbind, proc_bind.
    destruct (onSplitterLine_steps out na line an lines s) as (s1 & -> & H1).
    destruct (IH (output_lines na an [line]).1
                 (lines ++ (output_lines na an [line]).2) s1) as (s2 & -> & H2).
    exists s2.
    change (line :: emitted rest) with ([line] ++ emitted rest).
    rewrite output_lines_app. simpl. rewrite (assoc_L (++)).
    split; [done|]. by eapply line_steps_trans.
  - unfold mbind, proc_bind.
    destruct (line_steps_notify out msg s) as (s1 & -> & H1).
    destruct (IH an lines s1) as (s2 & -> & H2).
    exists s2. split; [done|].
    apply (line_steps_trans _ [] _ _ _ _ H1 H2).
Qed.

Lemma runSplitterActions_quiet out na acts an lines :
  adds (fun e => on_lines [e] = []) (SplitLog.runSplitterActions out na acts an lines).
Proof.
  revert an lines. induction acts as [|[line|msg] rest IH]; intros an lines; simpl.
  - apply adds_ret.
  - apply adds_bind; [|intros [an' lines']; apply IH].
    unfold SplitLog.onSplitterLine. destruct (negb na).
    + destruct (anonymizer_process an line) as [[an' [w|]] reports];
        repeat adds_step; auto.
    + repeat adds_step; auto.
  - apply adds_bind; [adds_step; auto|]. intros _. apply IH.
Qed.

Lemma lines_fed_prefix sp input : lines_fed sp input `prefix_of` input.
Proof.
  revert sp. induction input as [|line rest IH]; intros sp; simpl; [done|].
  apply prefix_cons.
  destruct (isDone _); [apply prefix_nil | apply IH].
Qed.

Lemma lines_fed_done sp input :
  lines_fed sp input <> input ->
  isDone (splitter_after sp (lines_fed sp input)) = true.
Proof.
  revert sp. induction input as [|line rest IH]; intros sp; simpl; [done|].
  destruct (isDone (processWithCallback sp line false).1) eqn:Hdone; [done|].
  intros Hne. apply IH. congruence.
Qed.

Lemma lines_fed_not_done_before sp input (k : nat) :
  (0 < k < length (lines_fed sp input))%nat ->
  isDone (splitter_after sp (take k (lines_fed sp input))) = false.
Proof.
  revert sp k. induction input as [|line rest IH]; intros sp k; simpl; [lia|].
  destruct k as [|k]; [lia|]. simpl.
  destruct (isDone (processWithCallback sp line false).1) eqn:Hdone; simpl; [lia|].
  intros Hk. destruct k as [|k]; [by rewrite take_0|].
  apply IH. lia.
Qed.

(** A splitter that is done emits nothing more, so the lines it emits
    until it is done are all it emits over the whole input. *)
Lemma splitter_output_all_done sp input :
  isDone sp = true -> splitter_output_all sp input = [].
Proof.
  intros Hdone. induction input as [|line rest IH]; [done|].
  simpl. by rewrite (done_is_final sp line false Hdone).
Qed.

Lemma splitter_output_whole sp input :
  splitter_output sp input = splitter_output_all sp input.
Proof.
  revert sp. induction input as [|line rest IH]; intros sp; [done|].
  simpl. destruct (processWithCallback sp line false) as [sp' acts]. simpl.
  destruct (isDone sp') eqn:Hdone; [|by rewrite IH].
  by rewrite splitter_output_all_done.
Qed.

Lemma splitter_after_cons sp line rest :
  splitter_after sp (line :: rest) =
  splitter_after (processWithCallback sp line false).1 rest.
Proof. done. Qed.

(** The ['line'] events up to [close()]: the lines of [lines_fed] are
    handled, and what the splitter emits for them is written. *)
Lemma lineReader_lines_steps out na input sp an lines s :
  exists s',
    SplitLog.lineReader_lines out na input sp an lines s =
      Next (splitter_after sp (lines_fed sp input),
            drop (length (lines_fed sp input)) input,
            (output_lines na an (splitter_output sp input)).1,
            lines ++ (output_lines na an (splitter_output sp input)).2) s' /\
    line_steps out (output_lines na an (splitter_output sp input)).2 s s'.
Proof.
  revert sp an lines s.
  induction input as [|line rest IH]; intros sp an lines s.
  - exists s. simpl. rewrite output_lines_nil. simpl. rewrite app_nil_r.
    split; [done|]. apply line_steps_refl.
  - cbn [SplitLog.lineReader_lines lines_fed splitter_output length drop].
    rewrite splitter_after_cons.
    unfold mbind at 1, proc_bind at 1.
    destruct (line_steps_emit_line out line s) as (s0 & -> & H0).
    destruct (processWithCallback sp line false) as [sp' acts].
    cbn [fst]. unfold mbind, proc_bind.
    destruct (runSplitterActions_steps out na acts an lines s0) as (s1 & -> & H1).
    rewrite output_lines_app. cbn [fst snd].
    destruct (isDone sp').
    + exists s1. rewrite output_lines_nil. cbn [fst snd]. rewrite !app_nil_r.
      split; [done|].
      apply (line_steps_trans _ [] _ _ _ _ H0 H1).
    + destruct (IH sp' (output_lines na an (emitted acts)).1
                   (lines ++ (output_lines na an (emitted acts)).2) s1)
        as (s2 & -> & H2).
      exists s2. rewrite (assoc_L (++)). split; [done|].
      apply (line_steps_trans _ [] _ _ _ _ H0).
      by eapply line_steps_trans.
Qed.

(** The lines that reach the ['line'] handler before [close()] are those
    of [lines_fed]. *)
Lemma lineReader_lines_on_lines out na input sp an lines s :
  on_lines (trace (final (SplitLog.lineReader_lines out na input sp an lines s))) =
  on_lines (trace s) ++ lines_fed sp input.
Proof.
  revert sp an lines s.
  induction input as [|line rest IH]; intros sp an lines s; simpl.
  { by rewrite app_nil_r. }
  unfold mbind at 1, proc_bind at 1.
  pose (s0 := final (emit (EOnLine line) s)).
  assert (trace s0 = trace s ++ [EOnLine line]) as Htr0 by done.
  change (emit (EOnLine line) s) with (Next tt s0). clearbody s0.
  cbv iota beta.
  destruct (processWithCallback sp line false) as [sp' acts] eqn:Hp. simpl.
  unfold mbind, proc_bind.
  destruct (runSplitterActions_quiet out na acts an lines s0) as (evs & Htr & Hall).
  destruct (runSplitterActions_steps out na acts an lines s0) as (s1 & Hrun & _).
  rewrite Hrun in Htr |- *. simpl in Htr.
  assert (on_lines (trace s1) = on_lines (trace s) ++ [line]) as Hs1.
  { rewrite Htr, Htr0, !on_lines_app, (no_on_lines evs Hall). simpl.
    by rewrite app_nil_r. }
  destruct (isDone sp').
  - simpl. by rewrite Hs1.
  - rewrite IH, Hs1. by rewrite <- (assoc_L (++)).
Qed.

(** After [close()] the splitter is done, and the handler does no more
    than take the line. *)
Lemma lineReader_buffered_done out na input sp an lines s :
  isDone sp = true ->
  SplitLog.lineReader_buffered out na input sp an lines s =
    Next tt {| trace := trace s ++ (EOnLine <$> input);
               exitCode := exitCode s; files := files s |}.
Proof.
  intros Hdone. revert s. induction input as [|line rest IH]; intros s; simpl.
  - rewrite app_nil_r. by destruct s.
  - rewrite (done_is_final sp line false Hdone). simpl.
    unfold mbind, proc_bind.
    change (emit (EOnLine line) s) with (Next tt (final (emit (EOnLine line) s))).
    unfold mret, proc_ret. cbv iota beta. rewrite IH. simpl.
    by rewrite <- (assoc_L (++)).
Qed.

(** The same for the lines that follow those of [lines_fed]: there are
    none unless the splitter is done. *)
Lemma lineReader_buffered_late out na input sp an lines s (n : nat) :
  SplitLog.lineReader_buffered out na
      (take n (drop (length (lines_fed sp input)) input))
      (splitter_after sp (lines_fed sp input)) an lines s =
    Next tt {| trace := trace s ++
                 (EOnLine <$> take n (drop (length (lines_fed sp input)) input));
               exitCode := exitCode s; files := files s |}.
Proof.
  destruct (decide (lines_fed sp input = input)) as [Heq|Hne].
  - rewrite Heq at 1 3. rewrite drop_all, take_nil. simpl.
    rewrite app_nil_r. by destruct s.
  - apply lineReader_buffered_done. by apply lines_fed_done.
Qed.

Lemma validate_steps_refl s : validate_steps [] s s.
Proof. exists []. rewrite app_nil_r. repeat split. by constructor. Qed.

Lemma validate_steps_trans l1 l2 s s1 s2 :
  validate_steps l1 s s1 -> validate_steps l2 s1 s2 ->
  validate_steps (l1 ++ l2) s s2.
Proof.
  intros (evs1 & Htr1 & Hph1 & Hv1 & Hf1) (evs2 & Htr2 & Hph2 & Hv2 & Hf2).
  exists (evs1 ++ evs2). repeat split.
  - by rewrite Htr2, Htr1, (assoc_L (++)).
  - by apply Forall_app.
  - by rewrite validated_app, Hv1, Hv2.
  - by rewrite Hf2.
Qed.

Lemma validate_steps_notify_all msgs s :
  exists s', notify_all msgs s = Next tt s' /\ validate_steps [] s s'.
Proof.
  revert s. induction msgs as [|m rest IH]; intros s; simpl.
  - exists s. split; [done|]. apply validate_steps_refl.
  - unfold mbind, proc_bind.
    destruct (IH (final (notify m s))) as (s2 & Hs2 & H2).
    exists s2. split; [done|].
    apply (validate_steps_trans [] [] _ (final (notify m s)) _); [|done].
    exists [ENotify m]. repeat split. by repeat constructor.
Qed.

Lemma validateLines_steps an lines s :
  exists an' s',
    SplitLog.validateLines an lines s = Next an' s' /\ validate_steps lines s s'.
Proof.
  revert an s. induction lines as [|line rest IH]; intros an s; simpl.
  - exists an, s. split; [done|]. apply validate_steps_refl.
  - unfold mbind at 1, proc_bind at 1.
    change (emit (EValidateLine line) s) with (Next tt (final (emit (EValidateLine line) s))).
    cbv iota beta.
    destruct (validateLine an line) as [an1 reports].
    unfold mbind, proc_bind.
    destruct (validate_steps_notify_all reports (final (emit (EValidateLine line) s)))
      as (s1 & -> & H1).
    destruct (IH an1 s1) as (an2 & s2 & -> & H2).
    exists an2, s2. split; [done|].
    apply (validate_steps_trans [line] rest _ s1 _); [|done].
    apply (validate_steps_trans [line] [] _ (final (emit (EValidateLine line) s)) _);
      [|done].
    exists [EValidateLine line]. repeat split. by repeat constructor.
Qed.

(** The ['close'] handler: the writer is ended, the post-pass runs when
    anonymization is on, the writer is closed. *)
Lemma lineReader_close_steps out na an lines s :
  exists an' s' post,
    SplitLog.lineReader_close out na an lines s = Next an' s' /\
    trace s' = trace s ++ [EWriterEnd out; EConsoleLog ("Wrote: " +:+ out)]
                       ++ post ++ [EWriterClose out] /\
    files s' = files s /\
    (if na then post = []
     else exists vs, post = EValidateIds :: vs /\
                     Forall (fun e => validate_phase e = true) vs /\
                     validated vs = lines).
Proof.
  unfold SplitLog.lineReader_close. destruct na; simpl.
  - eexists _, _, []. split; [done|]. simpl.
    by rewrite <- !(assoc_L (++)).
  - destruct (validateIds an) as [an1 reports].
    unfold mbind, proc_bind.
    set (s0 := final (emit EValidateIds
                 (final (emit (EConsoleLog ("Wrote: " +:+ out))
                    (final (emit (EWriterEnd out) s)))))).
    change (emit (EWriterEnd out) s) with (Next tt (final (emit (EWriterEnd out) s))).
    cbv iota beta.
    change (emit (EConsoleLog ("Wrote: " +:+ out)) (final (emit (EWriterEnd out) s)))
      with (Next tt (final (emit (EConsoleLog ("Wrote: " +:+ out))
                              (final (emit (EWriterEnd out) s))))).
    cbv iota beta.
    change (emit EValidateIds _) with (Next tt s0).
    cbv iota beta.
    destruct (validate_steps_notify_all reports s0) as (s1 & -> & H1).
    destruct (validateLines_steps an1 lines s1) as (an2 & s2 & -> & H2).
    destruct (validate_steps_trans _ _ _ _ _ H1 H2) as (vs & Htr & Hph & Hv & Hf).
    eexists _, _, (EValidateIds :: vs). split; [done|].
    simpl in *. rewrite Htr, Hf. subst s0. simpl.
    rewrite <- !(assoc_L (++)). simpl.
    split; [done|]. split; [done|]. by exists vs.
Qed.

(** What a call of [writeFile] does when both lines are given, the log can
    be read and the output file can be opened: the lines up to [close()]
    are handled and written, the ['close'] handler runs, and the rest of
    the chunk at hand follows. *)
Lemma writeFile_opened out startLine endLine s f input :
  file args = JSVal f ->
  files s !! f = Some input ->
  is_null (force args) = false \/ files s !! out = None ->
  let na := nullish (no_anonymize args) false in
  let af := nullish (analysis_filter args) false in
  let sp := new_Splitter startLine endLine true af in
  let outl := (output_lines na new_Anonymizer (splitter_output sp input)).2 in
  let unread := drop (length (lines_fed sp input)) input in
  exists s' mid post,
    SplitLog.writeFile args out (Some startLine) (Some endLine) s = Next Pending s' /\
    trace s' =
      trace s ++
      [ENewAnonymizer; ECreateReadStream (JSVal f);
       ECreateWriteStream out (if is_null (force args) then flags_wx else flags_w);
       ENewSplitter startLine endLine true af]
      ++ mid ++ [EWriterEnd out; EConsoleLog ("Wrote: " +:+ out)]
      ++ post ++ [EWriterClose out]
      ++ (EOnLine <$> take (buffered input unread) unread) /\
    Forall (fun e => line_phase e = true) mid /\
    on_lines mid = lines_fed sp input /\
    written out mid = outl /\
    (if na then post = []
     else exists vs, post = EValidateIds :: vs /\
                     Forall (fun e => validate_phase e = true) vs /\
                     validated vs = outl) /\
    files s' = <[out := outl]> (files s).
Proof.
  intros Hfile Hinput Hopen na af sp outl unread.
  unfold SplitLog.writeFile, SplitLog.logFileName. rewrite Hfile.
  unfold mbind at 1, proc_bind at 1.
  change (emit ENewAnonymizer s) with (Next tt (final (emit ENewAnonymizer s))).
  cbv iota beta.
  unfold mbind at 1, proc_bind at 1.
  unfold createReadStream at 1. simpl files. rewrite Hinput.
  unfold mbind at 1, proc_bind at 1.
  set (flags := if is_null (force args) then flags_wx else flags_w).
  assert (exists s2,
    createWriteStream out flags
      {| trace := trace (final (emit ENewAnonymizer s)) ++ [ECreateReadStream (JSVal f)];
         exitCode := exitCode (final (emit ENewAnonymizer s));
         files := files s |} = Next true s2 /\
    trace s2 = trace s ++ [ENewAnonymizer; ECreateReadStream (JSVal f);
                           ECreateWriteStream out flags] /\
    files s2 = <[out := []]> (files s)) as (s2 & -> & Htr2 & Hf2).
  { unfold createWriteStream. simpl.
    destruct Hopen as [Hforce|Hnone].
    - subst flags. rewrite Hforce. eexists. split; [done|]. simpl.
      by rewrite <- !(assoc_L (++)).
    - rewrite Hnone. destruct flags; (eexists; split; [done|]); simpl;
        by rewrite <- !(assoc_L (++)). }
  unfold mbind at 1, proc_bind at 1.
  change (emit (ENewSplitter startLine endLine true
                  (nullish (analysis_filter args) false)) s2)
    with (Next tt (final (emit (ENewSplitter startLine endLine true af) s2))).
  cbv iota beta. unfold mbind at 1, proc_bind at 1. simpl stream_lines.
  unfold mret at 1, proc_ret at 1. cbv iota beta.
  change (negb true) with false. cbv iota.
  fold na af. fold sp.
  unfold mbind at 1, proc_bind at 1.
  pose proof (lineReader_lines_on_lines out na input sp new_Anonymizer []
                {| trace := trace s2 ++ [ENewSplitter startLine endLine true af];
                   exitCode := exitCode s2; files := files s2 |}) as Hfed.
  destruct (lineReader_lines_steps out na input sp new_Anonymizer []
              {| trace := trace s2 ++ [ENewSplitter startLine endLine true af];
                 exitCode := exitCode s2; files := files s2 |})
    as (s3 & Hlines & (mid & Htr3 & Hph3 & Hw3 & Hf3)).
  rewrite Hlines in Hfed |- *. clear Hlines.
  fold outl in Hw3, Hf3 |- *. fold unread. cbv iota beta. rewrite app_nil_l.
  unfold mbind at 1, proc_bind at 1.
  destruct (lineReader_close_steps out na
              (output_lines na new_Anonymizer (splitter_output sp input)).1
              outl s3) as (an4 & s4 & post & -> & Htr4 & Hf4 & Hpost).
  unfold mbind at 1, proc_bind at 1.
  unfold unread at 1 2. rewrite lineReader_buffered_late. fold unread.
  unfold mret, proc_ret.
  eexists _, mid, post. split; [done|].
  split.
  { cbn [trace]. rewrite Htr4, Htr3. cbn [trace]. rewrite Htr2.
    rewrite <- !(assoc_L (++)). done. }
  split; [done|].
  split.
  { simpl in Hfed. rewrite Htr3 in Hfed. simpl in Hfed.
    rewrite on_lines_app in Hfed. by apply app_inv_head in Hfed. }
  split; [done|]. split; [done|].
  simpl. rewrite Hf4, (Hf3 []); simpl.
  - by rewrite Hf2, insert_insert_eq.
  - rewrite Hf2. apply lookup_insert_eq.
Qed.

End WriteFile.

(** ** Properties of the script *)

Section Claims.

Context `{ET : EncounterTools} `{SC : SplitterClass} `{AC : AnonymizerClass}
        `{RL : ReadlineClass} `{RE : RegExpEngine}.

(** C1 (as amended).  For every fight or zone record whose [endLine] is
    undefined, [writeFile] reports the missing line and ends the run with
    exit code -4.  It does so before it builds an Anonymizer or a Splitter
    and before it opens any stream: no line of the record is read or
    written and the files on disk are untouched. *)
Theorem open_record_aborts (args : SplitLogArgs) (r : Fight + Zone) (s : state) :
  record_endLine r = None ->
  writeFile_record args r s =
    Stop (Exited (-4))
         {| trace := trace s ++
                     [EConsoleError (match record_startLine r with
                                     | Some _ => "Error: missing endLine"
                                     | None => "Error: missing startLine"
                                     end)];
            exitCode := 1;
            files := files s |}.
Proof.
  intros Hend. unfold writeFile_record, SplitLog.writeFile. rewrite Hend.
  by destruct (record_startLine r).
Qed.

(** C2.  In the fight-regex loop a fight whose [sealName] is defined is
    selected exactly when the regex matches [sealName], whatever
    [fightName] is; a fight without [sealName] is selected exactly when
    [fightName] is defined and the regex matches it.  The loop calls
    [writeFile] for the selected fights, in order, and for no other. *)
Theorem seal_name_takes_priority (args : SplitLogArgs) (regex : RegExp) :
  (forall fight : Fight,
     SplitLog.fight_skipped regex fight = false <->
     match sealName fight with
     | Some seal => String_match seal regex = true
     | None => exists name, fightName fight = Some name /\
                            String_match name regex = true
     end) /\
  (forall (fs : list Fight) (s : state),
     SplitLog.fight_loop args regex fs s =
     write_each args
       (inl <$> filter (fun f => SplitLog.fight_skipped regex f = false) fs) s).
Proof.
  split; [|apply fight_loop_write_each].
  intros fight. unfold SplitLog.fight_skipped, optional_match.
  destruct (sealName fight) as [seal|].
  - by destruct (String_match seal regex).
  - destruct (fightName fight) as [name|]; simpl.
    + destruct (String_match name regex) eqn:Hm; simpl.
      * split; [|done]. intros _. by exists name.
      * split; [done|]. intros (name' & [= <-] & Hm'). congruence.
    + split; [done|]. by intros (name & ? & _).
Qed.

(** With one selector given as a value and the check of line 65 passed,
    the other three selectors are [undefined]. *)
Lemma one_selector_fights (args : SplitLogArgs) n :
  search_fights args = JSVal n -> numExclusiveArgs args = 1 ->
  search_zones args = JSUndefined /\ fight_regex args = JSUndefined /\
  zone_regex args = JSUndefined.
Proof.
  unfold numExclusiveArgs. simpl. intros ->. simpl.
  destruct (search_zones args), (fight_regex args), (zone_regex args);
    simpl; intros; try lia; done.
Qed.

Lemma one_selector_zones (args : SplitLogArgs) n :
  search_zones args = JSVal n -> numExclusiveArgs args = 1 ->
  search_fights args = JSUndefined /\ fight_regex args = JSUndefined /\
  zone_regex args = JSUndefined.
Proof.
  unfold numExclusiveArgs. simpl. intros ->. simpl.
  destruct (search_fights args), (fight_regex args), (zone_regex args);
    simpl; intros; try lia; done.
Qed.

(** The check of lines 57-67 counts the selectors that are not
    [undefined]. *)
Lemma numExclusiveArgs_count (args : SplitLogArgs) :
  numExclusiveArgs args =
  Z.of_nat (length (filter (fun opt => arg_not_undefined args opt = true) exclusiveArgs)).
Proof.
  unfold numExclusiveArgs, exclusiveArgs. simpl.
  rewrite !filter_cons, filter_nil. simpl.
  by destruct (search_fights args), (search_zones args),
              (fight_regex args), (zone_regex args).
Qed.

(** The prepass (lines 151-163) on a log that can be read. *)
Lemma prepass_reads (f : string) (input : list string) disk :
  disk !! f = Some input ->
  SplitLog.makeCollectorFromPrepass (JSVal f) (SplitLog.initial disk) =
    Next (fold_left (fun collector line => collector_process collector line false)
                    input new_EncounterCollector)
         {| trace := [ECreateReadStream (JSVal f)]; exitCode := 0; files := disk |}.
Proof.
  intros Hin. unfold SplitLog.makeCollectorFromPrepass, mbind, proc_bind,
    createReadStream. simpl. by rewrite Hin.
Qed.

Lemma dispatch_event_not_help e : dispatch_event e -> e <> EPrintHelp.
Proof. intros He ->. inversion He as [e Hw| | | |]. inversion Hw. Qed.

(** C4.  A selector counts as present when its field is not [undefined],
    which is the test of line 65.  If the number of selectors present is
    not one, the run prints a usage error and the help and exits with a
    negative code, having opened, read and written no file.  If exactly
    one is present (and a file was named), no usage error is printed and
    the run goes on to the prepass, which opens the log. *)
Theorem exactly_one_selector (args : SplitLogArgs) (disk : gmap string (list string)) :
  (numExclusiveArgs args <> 1 ->
   SplitLog.run args disk =
     (Exited (if is_null (file args) then -1 else -2),
      {| trace := [EConsoleError
                     (if is_null (file args)
                      then "Error: Must specify -f
"
                      else "Error: Must specify exactly one of -lf, -lz, or -fr
");
                   EPrintHelp];
         exitCode := 0;
         files := disk |})) /\
  (numExclusiveArgs args = 1 -> is_null (file args) = false ->
   exists rest,
     trace (SplitLog.run args disk).2 = ECreateReadStream (file args) :: rest /\
     EPrintHelp ∉ rest).
Proof.
  split.
  - intros Hne. unfold SplitLog.run, SplitLog.script.
    destruct (is_null (file args)); [done|].
    destruct (numExclusiveArgs args =? 1) eqn:Hone; [|done].
    by apply Z.eqb_eq in Hone.
  - intros Hone Hfile. unfold SplitLog.run, SplitLog.script.
    rewrite Hfile, Hone. simpl.
    unfold mbind, proc_bind, SplitLog.makeCollectorFromPrepass, mbind, proc_bind,
      SplitLog.logFileName.
    assert (trace (final (createReadStream (file args) (SplitLog.initial disk)))
            = [ECreateReadStream (file args)]) as Hread.
    { unfold createReadStream. simpl. by destruct (file args). }
    destruct (createReadStream (file args) (SplitLog.initial disk))
      as [[input|] s1|o s1]; simpl in *.
    + destruct (adds_dispatch args
                  (fold_left (fun collector line => collector_process collector line false)
                             input new_EncounterCollector) Hone s1)
        as (evs & Htr & Hall).
      exists evs. split.
      * destruct (SplitLog.dispatch _ _ s1); simpl in *; by rewrite Htr, Hread.
      * intros Hin. rewrite Forall_forall in Hall.
        by apply (dispatch_event_not_help _ (Hall _ Hin)).
    + exists []. rewrite Hread. split; [done|]. apply not_elem_of_nil.
    + exists []. rewrite Hread. split; [done|]. apply not_elem_of_nil.
Qed.


(** Nothing that a run prints is the message of line 216: the final
    [else] branch needs both regex selectors to be [null], and the check of
    line 65 counts a [null] selector as given. *)
Lemma internal_error_unreachable
    (args : SplitLogArgs) (disk : gmap string (list string)) :
  "Internal error" ∉ console_errors (trace (SplitLog.run args disk).2).
Proof.
  intros Hin. unfold console_errors in Hin.
  apply list_elem_of_omap in Hin as (e & He & Hmsg).
  destruct e; try done. injection Hmsg as ->.
  pose proof (run_events args disk) as Hall.
  rewrite Forall_forall in Hall. apply Hall in He.
  inversion He as [e Hd| | |]; subst.
  inversion Hd as [e Hw| | | |]; subst.
  inversion Hw.
Qed.

(** With an index of value 0 as the one selector, the dispatch is the
    fight-regex branch of lines 195-206 on the [undefined] pattern: the
    tests of lines 165-185 fail, and [undefined !== null] holds. *)
Lemma index_zero_dispatch (args : SplitLogArgs) (collector : EncounterCollector)
    (s : state) :
  search_fights args = JSVal 0 \/ search_zones args = JSVal 0 ->
  numExclusiveArgs args = 1 ->
  SplitLog.dispatch args collector s =
    (regex ← SplitLog.make_regex JSUndefined;
     SplitLog.fight_loop args regex (fights collector);;
     code ← get_exitCode;
     process_exit code) s.
Proof.
  intros Hzero Hone. unfold SplitLog.dispatch.
  destruct Hzero as [Hf|Hz].
  - destruct (one_selector_fights args 0 Hf Hone) as (-> & -> & _).
    by rewrite Hf.
  - destruct (one_selector_zones args 0 Hz Hone) as (-> & -> & _).
    by rewrite Hz.
Qed.



Lemma validated_line_phase tr :
  Forall (fun e => line_phase e = true) tr -> validated tr = [].
Proof.
  induction 1 as [|e tr He _ IH]; [done|].
  destruct e; try done; exact IH.
Qed.

Lemma written_validate_phase out tr :
  Forall (fun e => validate_phase e = true) tr -> written out tr = [].
Proof.
  induction 1 as [|e tr He _ IH]; [done|].
  destruct e; try done; exact IH.
Qed.

Lemma written_on_lines out ls : written out (EOnLine <$> ls) = [].
Proof. by induction ls. Qed.

Lemma validated_on_lines ls : validated (EOnLine <$> ls) = [].
Proof. by induction ls. Qed.

Lemma on_lines_fmap ls : on_lines (EOnLine <$> ls) = ls.
Proof.
  induction ls as [|l ls IH]; [done|].
  rewrite fmap_cons.
  change (on_lines (EOnLine l :: (EOnLine <$> ls)))
    with (l :: on_lines (EOnLine <$> ls)).
  by rewrite IH.
Qed.

(** The lines a call of [writeFile] writes and validates. *)
Lemma writeFile_output (args : SplitLogArgs) (out startLine endLine : string)
    (s : state) (f : string) (input : list string) :
  file args = JSVal f ->
  files s !! f = Some input ->
  is_null (force args) = false \/ files s !! out = None ->
  let noAnonymize := nullish (no_anonymize args) false in
  let from_splitter :=
    splitter_output
      (new_Splitter startLine endLine true (nullish (analysis_filter args) false))
      input in
  let outl := if noAnonymize then from_splitter
              else (anonymize_lines new_Anonymizer from_splitter).2 in
  exists s' evs,
    SplitLog.writeFile args out (Some startLine) (Some endLine) s = Next Pending s' /\
    trace s' = trace s ++ evs /\
    written out evs = outl /\
    files s' !! out = Some outl /\
    validated evs = (if noAnonymize then [] else outl) /\
    ECreateWriteStream out (if is_null (force args) then flags_wx else flags_w) ∈ evs.
Proof.
  intros Hfile Hin Hopen noAnonymize from_splitter outl.
  destruct (writeFile_opened args out startLine endLine s f input Hfile Hin Hopen)
    as (s' & mid & post & Hrun & Htr & Hmid & _ & Hw & Hpost & Hfiles).
  assert ((output_lines noAnonymize new_Anonymizer from_splitter).2 = outl) as Hout.
  { unfold output_lines, outl. by destruct noAnonymize. }
  fold noAnonymize from_splitter in Hw, Hpost, Hfiles.
  rewrite Hout in Hw, Hpost, Hfiles.
  eexists s', _. split; [done|]. split; [exact Htr|].
  assert (written out post = [] /\
          validated post = if noAnonymize then [] else outl) as [Hwp Hvp].
  { destruct noAnonymize.
    - by rewrite Hpost.
    - destruct Hpost as (vs & -> & Hvs & Hval). split.
      + change (EValidateIds :: vs) with ([EValidateIds] ++ vs).
        by rewrite written_app, (written_validate_phase out vs Hvs).
      + change (EValidateIds :: vs) with ([EValidateIds] ++ vs).
        by rewrite validated_app, Hval. }
  split; [|split; [|split]].
  - rewrite !written_app, Hw, Hwp, written_on_lines. simpl. by rewrite !app_nil_r.
  - rewrite Hfiles. apply lookup_insert_eq.
  - rewrite !validated_app, (validated_line_phase mid Hmid), Hvp, validated_on_lines.
    simpl. by rewrite !app_nil_r.
  - do 2 apply list_elem_of_further. apply list_elem_of_here.
Qed.

(** C6.  For a call of [writeFile] that opens its output: with
    anonymization on, the anonymizer is run over the lines the splitter
    emits, in order; a line for which it returns [undefined] is neither
    written nor passed to [validateLine], and for every other line the
    returned string is what is written and later validated.  With
    anonymization off, the emitted lines are written as they are. *)
Theorem dropped_lines_not_written (args : SplitLogArgs) (out startLine endLine : string)
    (s : state) (f : string) (input : list string) :
  file args = JSVal f ->
  files s !! f = Some input ->
  is_null (force args) = false \/ files s !! out = None ->
  let noAnonymize := nullish (no_anonymize args) false in
  let from_splitter :=
    splitter_output
      (new_Splitter startLine endLine true (nullish (analysis_filter args) false))
      input in
  let outl := if noAnonymize then from_splitter
              else (anonymize_lines new_Anonymizer from_splitter).2 in
  exists s' evs,
    SplitLog.writeFile args out (Some startLine) (Some endLine) s = Next Pending s' /\
    trace s' = trace s ++ evs /\
    written out evs = outl /\
    files s' !! out = Some outl /\
    validated evs = (if noAnonymize then [] else outl).
Proof.
  intros Hfile Hin Hopen noAnonymize from_splitter outl.
  destruct (writeFile_output args out startLine endLine s f input Hfile Hin Hopen)
    as (s' & evs & Hrun & Htr & Hw & Hfiles & Hval & _).
  by exists s', evs.
Qed.

(** Splits a [Forall] over a concatenation into its pieces. *)
Ltac Forall_pieces :=
  repeat match goal with
         | |- Forall _ [] => apply Forall_nil_2
         | |- Forall _ (_ :: _) => apply Forall_cons_2
         | |- Forall _ (_ ++ _) => apply Forall_app_2
         end.

Lemma line_phase_not_validation e : line_phase e = true -> is_validation e = false.
Proof. by destruct e. Qed.

Lemma validate_phase_after e :
  validate_phase e = true -> e <> EValidateIds /\ is_line_work e = false.
Proof. by destruct e. Qed.

(** C7.  For a call of [writeFile] that opens its output: with
    anonymization on, [validateIds] is called exactly once, by the
    ['close'] handler.  Before that call come the ['line'] events of the
    lines of the log up to and including the first one after which the
    splitter is done (of every line when it is never done), and every
    write.  After it [validateLine] is called once for each line written,
    in the order of the writes, and on nothing else, with no line event
    and no write in between.  Then come the ['line'] events of the lines
    that were in the same chunk as the line at which the reader was
    closed, and nothing else.  With anonymization off there is no call of
    [validateIds] or [validateLine]. *)
Theorem validation_after_all_lines (args : SplitLogArgs) (out startLine endLine : string)
    (s : state) (f : string) (input : list string) :
  file args = JSVal f ->
  files s !! f = Some input ->
  is_null (force args) = false \/ files s !! out = None ->
  let fed :=
    lines_fed (new_Splitter startLine endLine true
                 (nullish (analysis_filter args) false)) input in
  let unread := drop (length fed) input in
  exists s' evs,
    SplitLog.writeFile args out (Some startLine) (Some endLine) s = Next Pending s' /\
    trace s' = trace s ++ evs /\
    if nullish (no_anonymize args) false
    then Forall (fun e => is_validation e = false) evs
    else exists before after,
           evs = before ++ EValidateIds :: after
                 ++ (EOnLine <$> take (buffered input unread) unread) /\
           Forall (fun e => is_validation e = false) before /\
           on_lines before = fed /\
           Forall (fun e => e <> EValidateIds /\ is_line_work e = false) after /\
           validated after = written out before.
Proof.
  intros Hfile Hin Hopen fed unread.
  destruct (writeFile_opened args out startLine endLine s f input Hfile Hin Hopen)
    as (s' & mid & post & Hrun & Htr & Hmid & Hon & Hw & Hpost & Hfiles).
  fold fed in Hon, Htr. fold unread in Htr.
  eexists s', _. split; [done|]. split; [exact Htr|].
  assert (Forall (fun e => is_validation e = false) mid) as Hmid'.
  { eapply Forall_impl; [exact Hmid|]. apply line_phase_not_validation. }
  destruct (nullish (no_anonymize args) false).
  - rewrite Hpost. Forall_pieces; try done.
    apply Forall_fmap, Forall_true. done.
  - destruct Hpost as (vs & -> & Hvs & Hval).
    exists ([ENewAnonymizer; ECreateReadStream (JSVal f);
             ECreateWriteStream out (if is_null (force args) then flags_wx else flags_w);
             ENewSplitter startLine endLine true (nullish (analysis_filter args) false)]
            ++ mid ++ [EWriterEnd out; EConsoleLog ("Wrote: " +:+ out)]),
           (vs ++ [EWriterClose out]).
    split; [by rewrite <- !(assoc_L (++))|].
    split; [|split; [|split]].
    + Forall_pieces; done.
    + rewrite !on_lines_app, Hon. simpl. by rewrite app_nil_r.
    + apply Forall_app. split.
      * eapply Forall_impl; [exact Hvs|]. apply validate_phase_after.
      * by repeat constructor.
    + rewrite validated_app, Hval, !written_app, Hw. simpl.
      by rewrite !app_nil_r.
Qed.

(** How line 102 chooses the flags of the write stream: ['wx'] when
    [args.force] is [null], ['w'] otherwise, also when it is [undefined].
    With ['wx'] and an existing destination the open fails, the error is
    printed and the run exits with code -1, the existing file left as it
    was.  With ['w'] the destination ends up holding the lines of this
    call only. *)
Lemma force_null_decides (args : SplitLogArgs) (out startLine endLine : string)
    (s : state) (f : string) (input old : list string) :
  file args = JSVal f ->
  files s !! f = Some input ->
  files s !! out = Some old ->
  (force args = JSNull ->
   SplitLog.writeFile args out (Some startLine) (Some endLine) s =
     Stop (Exited (-1))
          {| trace := trace s ++
                      [ENewAnonymizer; ECreateReadStream (JSVal f);
                       ECreateWriteStream out flags_wx;
                       ENewSplitter startLine endLine true
                                    (nullish (analysis_filter args) false);
                       EConsoleErrorObject (EEXIST out)];
             exitCode := 1;
             files := files s |}) /\
  (force args <> JSNull ->
   exists s' evs,
     SplitLog.writeFile args out (Some startLine) (Some endLine) s = Next Pending s' /\
     trace s' = trace s ++ evs /\
     ECreateWriteStream out flags_w ∈ evs /\
     files s' !! out = Some (written out evs)).
Proof.
  intros Hfile Hin Hold. split.
  - intros Hforce. unfold SplitLog.writeFile, SplitLog.logFileName.
    rewrite Hfile, Hforce.
    unfold mbind, proc_bind, emit, createReadStream, createWriteStream,
      errorFunc_error, process_exit.
    simpl. rewrite Hin. cbn [files trace exitCode]. rewrite Hold.
    cbn [files trace exitCode negb stream_lines].
    unfold mret, proc_ret. cbn [files trace exitCode].
    by rewrite <- !(assoc_L (++)).
  - intros Hforce.
    assert (is_null (force args) = false) as Hnn by (by destruct (force args)).
    destruct (writeFile_output args out startLine endLine s f input
                Hfile Hin (or_introl Hnn))
      as (s' & evs & Hrun & Htr & Hw & Hfiles & _ & Hopened).
    rewrite Hnn in Hopened. exists s', evs. by rewrite Hw.
Qed.

(** *** The promise of [writeFile] is never fulfilled *)

(** Nothing in lines 93-146 calls [resolve]: when [writeFile] returns,
    its promise is pending. *)
Lemma writeFile_never_fulfilled (args : SplitLogArgs) out startLine endLine s p s' :
  SplitLog.writeFile args out startLine endLine s = Next p s' -> p = Pending.
Proof.
  unfold SplitLog.writeFile.
  destruct startLine as [startLine|]; [|done].
  destruct endLine as [endLine|]; [|done].
  unfold mbind, proc_bind.
  destruct (emit ENewAnonymizer s) as [[] s0|]; [|done].
  destruct (createReadStream _ s0) as [stream s1|]; [|done].
  destruct (createWriteStream _ _ s1) as [opened s2|]; [|done].
  destruct (emit _ s2) as [[] s3|]; [|done].
  destruct (stream_lines stream s3) as [input s3'|]; [|done].
  destruct (negb opened).
  { by destruct (errorFunc_error _ s3'). }
  destruct (SplitLog.lineReader_lines _ _ _ _ _ _ s3')
    as [[[[sp unread] an] lines] s4|]; [|done].
  destruct (SplitLog.lineReader_close _ _ _ _ s4) as [an' s5|]; [|done].
  destruct (SplitLog.lineReader_buffered _ _ _ _ _ _ s5) as [[] s6|]; [|done].
  by intros [= <- _].
Qed.

(** So the code after [await writeFile(...)] never runs. *)
Lemma await_writeFile_stops (args : SplitLogArgs) (r : Fight + Zone) (s : state) :
  (p ← writeFile_record args r; await p) s =
  match writeFile_record args r s with
  | Next _ s' => Stop Drained s'
  | Stop o s' => Stop o s'
  end.
Proof.
  unfold mbind, proc_bind, writeFile_record.
  destruct (SplitLog.writeFile _ _ _ _ s) as [p s'|] eqn:Hw; [|done].
  by rewrite (writeFile_never_fulfilled _ _ _ _ _ _ _ Hw).
Qed.

(** A loop over several records gets to call [writeFile] for the first
    of them only. *)
Lemma write_each_first_only (args : SplitLogArgs) (r : Fight + Zone) rest (s : state) :
  write_each args (r :: rest) s =
  match writeFile_record args r s with
  | Next _ s' => Stop Drained s'
  | Stop o s' => Stop o s'
  end.
Proof.
  simpl. unfold mbind, proc_bind.
  destruct (writeFile_record args r s) as [p s'|] eqn:Hw; [|done].
  unfold writeFile_record in Hw.
  by rewrite (writeFile_never_fulfilled _ _ _ _ _ _ _ Hw).
Qed.

(** *** At most one output file per run *)

Lemma streams_created_app tr1 tr2 :
  streams_created (tr1 ++ tr2) = streams_created tr1 ++ streams_created tr2.
Proof. apply omap_app. Qed.

Lemma no_streams tr : Forall no_stream tr -> streams_created tr = [].
Proof.
  induction 1 as [|e tr He _ IH]; [done|].
  change (e :: tr) with ([e] ++ tr). by rewrite streams_created_app, He, IH.
Qed.

Lemma creates_none {A} (m : proc A) : adds no_stream m -> creates_at_most 0 m.
Proof.
  intros Hm s. destruct (Hm s) as (evs & Htr & Hall).
  exists evs. split; [done|]. by rewrite (no_streams evs Hall).
Qed.

Lemma creates_at_most_mono {A} (a b : nat) (m : proc A) :
  (a <= b)%nat -> creates_at_most a m -> creates_at_most b m.
Proof.
  intros Hab Hm s. destruct (Hm s) as (evs & Htr & Hlen).
  exists evs. split; [done|]. lia.
Qed.

Lemma creates_at_most_bind {A B} (a b : nat) (m : proc A) (f : A -> proc B) :
  creates_at_most a m -> (forall x, creates_at_most b (f x)) ->
  creates_at_most (a + b) (m ≫= f).
Proof.
  intros Hm Hf s. unfold mbind, proc_bind.
  destruct (Hm s) as (evs1 & Htr1 & Hlen1).
  destruct (m s) as [x s1|o s1]; simpl in *.
  - destruct (Hf x s1) as (evs2 & Htr2 & Hlen2).
    exists (evs1 ++ evs2). rewrite Htr2, Htr1, (assoc_L (++)).
    split; [done|]. rewrite streams_created_app, length_app. lia.
  - exists evs1. split; [done|]. lia.
Qed.

Lemma creates_one_createWriteStream path flags :
  creates_at_most 1 (createWriteStream path flags).
Proof.
  intros s. exists [ECreateWriteStream path flags]. split; [|done].
  unfold createWriteStream. destruct flags; [|done]. by destruct (files s !! path).
Qed.

Lemma line_phase_no_stream e : line_phase e = true -> no_stream e.
Proof. by destruct e. Qed.

Lemma validate_phase_no_stream e : validate_phase e = true -> no_stream e.
Proof. by destruct e. Qed.

Lemma creates_none_lineReader_lines out na input sp an lines :
  creates_at_most 0 (SplitLog.lineReader_lines out na input sp an lines).
Proof.
  apply creates_none. intros s.
  destruct (lineReader_lines_steps out na input sp an lines s)
    as (s' & -> & evs & Htr & Hph & _).
  exists evs. split; [done|].
  eapply Forall_impl; [exact Hph|]. apply line_phase_no_stream.
Qed.

Lemma creates_none_lineReader_close out na an lines :
  creates_at_most 0 (SplitLog.lineReader_close out na an lines).
Proof.
  apply creates_none. intros s.
  destruct (lineReader_close_steps out na an lines s)
    as (an' & s' & post & -> & Htr & _ & Hpost).
  eexists. split; [exact Htr|].
  apply Forall_app_2; [by repeat constructor|].
  apply Forall_app_2; [|by repeat constructor].
  destruct na; [by rewrite Hpost|].
  destruct Hpost as (vs & -> & Hvs & _).
  apply Forall_cons_2; [done|].
  eapply Forall_impl; [exact Hvs|]. apply validate_phase_no_stream.
Qed.

Lemma creates_none_lineReader_buffered out na input sp an lines :
  creates_at_most 0 (SplitLog.lineReader_buffered out na input sp an lines).
Proof.
  apply creates_none. revert sp an lines.
  induction input as [|line rest IH]; intros sp an lines; simpl.
  - apply adds_ret.
  - apply adds_bind; [by apply adds_emit|]. intros _.
    destruct (processWithCallback sp line false) as [sp' acts].
    apply adds_bind; [|intros [an' lines']; apply IH].
    intros s.
    destruct (runSplitterActions_steps out na acts an lines s)
      as (s' & -> & evs & Htr & Hph & _).
    exists evs. split; [done|].
    eapply Forall_impl; [exact Hph|]. apply line_phase_no_stream.
Qed.

(** A call of [writeFile] creates at most one write stream. *)
Lemma creates_one_writeFile (args : SplitLogArgs) out startLine endLine :
  creates_at_most 1 (SplitLog.writeFile args out startLine endLine).
Proof.
  unfold SplitLog.writeFile.
  destruct startLine as [startLine|];
    [|apply (creates_at_most_mono 0); [lia|];
      apply creates_none; repeat adds_step; done].
  destruct endLine as [endLine|];
    [|apply (creates_at_most_mono 0); [lia|];
      apply creates_none; repeat adds_step; done].
  apply (creates_at_most_bind 0 1); [apply creates_none; by adds_step|]. intros _.
  apply (creates_at_most_bind 0 1); [apply creates_none; by adds_step|]. intros stream.
  apply (creates_at_most_bind 1 0); [apply creates_one_createWriteStream|].
  intros opened.
  apply (creates_at_most_bind 0 0); [apply creates_none; by adds_step|]. intros _.
  apply (creates_at_most_bind 0 0); [apply creates_none; by adds_step|]. intros input.
  destruct (negb opened); [apply creates_none; repeat adds_step; done|].
  apply (creates_at_most_bind 0 0); [apply creates_none_lineReader_lines|].
  intros [[[sp unread] an] lines].
  apply (creates_at_most_bind 0 0); [apply creates_none_lineReader_close|].
  intros an'.
  apply (creates_at_most_bind 0 0); [apply creates_none_lineReader_buffered|].
  intros _. apply creates_none, adds_ret.
Qed.

(** What follows [await writeFile(...)] adds nothing to the run. *)
Lemma stops_after_writeFile {B} (args : SplitLogArgs) (r : Fight + Zone)
    (k : proc B) (s : state) :
  final ((p ← writeFile_record args r; await p;; k) s) =
  final (writeFile_record args r s).
Proof.
  unfold mbind, proc_bind.
  destruct (writeFile_record args r s) as [p s'|] eqn:Hw; [|done].
  unfold writeFile_record in Hw.
  by rewrite (writeFile_never_fulfilled _ _ _ _ _ _ _ Hw).
Qed.

Lemma creates_one_write_each (args : SplitLogArgs) records :
  creates_at_most 1 (write_each args records).
Proof.
  destruct records as [|r rest].
  - apply (creates_at_most_mono 0); [lia|]. apply creates_none, adds_ret.
  - intros s. simpl. rewrite stops_after_writeFile.
    apply creates_one_writeFile.
Qed.

Lemma creates_one_dispatch (args : SplitLogArgs) collector :
  creates_at_most 1 (SplitLog.dispatch args collector).
Proof.
  unfold SplitLog.dispatch.
  destruct (strict_eq_num (search_fights args) (-1)).
  { apply (creates_at_most_mono 0); [lia|]. apply creates_none. repeat adds_step; done. }
  destruct (strict_eq_num (search_zones args) (-1)).
  { apply (creates_at_most_mono 0); [lia|]. apply creates_none. repeat adds_step; done. }
  destruct (truthy_num (search_fights args)).
  { destruct (js_index _ _) as [fight|].
    - intros s.
      rewrite (stops_after_writeFile args (inl fight) (code ← get_exitCode; process_exit code)).
      apply creates_one_writeFile.
    - apply (creates_at_most_mono 0); [lia|]. apply creates_none.
      repeat adds_step; done. }
  destruct (truthy_num (search_zones args)).
  { destruct (js_index _ _) as [zone|].
    - intros s.
      rewrite (stops_after_writeFile args (inr zone) (code ← get_exitCode; process_exit code)).
      apply creates_one_writeFile.
    - apply (creates_at_most_mono 0); [lia|]. apply creates_none.
      repeat adds_step; done. }
  destruct (negb (is_null (fight_regex args))).
  { apply (creates_at_most_bind 0 1); [apply creates_none, adds_make_regex|].
    intros regex.
    apply (creates_at_most_bind 1 0);
      [|intros _; apply creates_none; repeat adds_step].
    intros s. rewrite fight_loop_write_each. apply creates_one_write_each. }
  destruct (negb (is_null (zone_regex args))).
  { apply (creates_at_most_bind 0 1); [apply creates_none, adds_make_regex|].
    intros regex.
    apply (creates_at_most_bind 1 0);
      [|intros _; apply creates_none; repeat adds_step].
    intros s. rewrite zone_loop_write_each. apply creates_one_write_each. }
  apply (creates_at_most_mono 0); [lia|]. apply creates_none. repeat adds_step; done.
Qed.

(** Whatever the arguments and however many records match, a run creates
    at most one output file. *)
Lemma at_most_one_output (args : SplitLogArgs) (disk : gmap string (list string)) :
  (length (streams_created (trace (SplitLog.run args disk).2)) <= 1)%nat.
Proof.
  assert (creates_at_most 1 (SplitLog.script args)) as Hscript.
  { unfold SplitLog.script.
    destruct (is_null (file args)).
    { apply (creates_at_most_mono 0); [lia|]. apply creates_none.
      apply adds_bind; [by apply adds_printHelpAndError|]. intros _. adds_step. }
    destruct (negb (numExclusiveArgs args =? 1)).
    { apply (creates_at_most_mono 0); [lia|]. apply creates_none.
      apply adds_bind; [by apply adds_printHelpAndError|]. intros _. adds_step. }
    apply (creates_at_most_bind 0 1); [|intros c; apply creates_one_dispatch].
    apply creates_none. unfold SplitLog.makeCollectorFromPrepass.
    repeat adds_step; done. }
  destruct (Hscript (SplitLog.initial disk)) as (evs & Htr & Hlen).
  unfold SplitLog.run, SplitLog.ending.
  destruct (SplitLog.script args (SplitLog.initial disk)); simpl in *;
    by rewrite Htr.
Qed.

End Claims.

(** ** Global lines, with the splitter modelled from the spec *)

Section Globals.

Context `{ET : EncounterTools} `{AC : AnonymizerClass} `{RL : ReadlineClass}
        `{RE : RegExpEngine}.






End Globals.

(** ** The script on the scenario log *)

Section Scenario.

#[local] Existing Instances
  Fixture.tools Fixture.splitters Fixture.anonymizers Fixture.readlines
  Fixture.regexps.

(** The inputs of [open_record_aborts] on the fight that is open at the
    end of the log. *)
Lemma open_record_aborts_witness :
  record_endLine (Fixture.fight_record Fixture.open_fight) = None /\
  writeFile_record (Fixture.fight_index 1) (Fixture.fight_record Fixture.open_fight)
                   (SplitLog.initial {[ "log" := Fixture.open_log ]}) =
    Stop (Exited (-4))
         {| trace := [EConsoleError "Error: missing endLine"];
            exitCode := 1;
            files := {[ "log" := Fixture.open_log ]} |}.
Proof.
  split; [reflexivity|].
  exact (open_record_aborts (Fixture.fight_index 1)
           (Fixture.fight_record Fixture.open_fight)
           (SplitLog.initial {[ "log" := Fixture.open_log ]}) eq_refl).
Defined.

(** C1 fails on the script: the only fight of [open_log] has no end line,
    and selecting it ends the run with exit code -4 after the prepass.
    No splitter is built, no stream is opened for writing and nothing is
    written. *)
Lemma open_fight_is_not_split :
  Fixture.c_fights (Fixture.collected Fixture.open_log) = [Fixture.open_fight] /\
  Fixture.run (Fixture.fight_index 1) {[ "log" := Fixture.open_log ]} =
    (Exited (-4),
     {| trace := [ECreateReadStream (JSVal "log");
                  EConsoleError "Error: missing endLine"];
        exitCode := 1;
        files := {[ "log" := Fixture.open_log ]} |}).
Proof. split; vm_compute; reflexivity. Qed.

(** C3 fails on the script.  Both fights of the scenario match the
    pattern, but the run ends with the first output file: the promise of
    the first [writeFile] stays pending, the loop does not go on, and no
    stream is ever created for the second fight. *)
Theorem second_match_never_written :
  Fixture.file_name ∘ inl <$>
    filter (fun f => SplitLog.fight_skipped "Boss" f = false)
           (Fixture.c_fights (Fixture.collected Fixture.scenario_log))
    = ["Boss1.log"; "Boss2.log"] /\
  (Fixture.run (Fixture.fight_pattern "Boss") Fixture.scenario_disk).1 = Drained /\
  streams_created
    (trace (Fixture.run (Fixture.fight_pattern "Boss") Fixture.scenario_disk).2)
    = ["Boss1.log"] /\
  files (Fixture.run (Fixture.fight_pattern "Boss") Fixture.scenario_disk).2
    !! "Boss2.log" = None.
Proof. repeat split; vm_compute; reflexivity. Qed.

(** With a seal name, a pattern that matches only the fight name does not
    select the fight, and one that matches the seal name does. *)
Example seal_name_decides :
  SplitLog.fight_skipped "Boss" Fixture.sealed_fight = true /\
  SplitLog.fight_skipped "Gate" Fixture.sealed_fight = false.
Proof. split; reflexivity. Qed.

(** The inputs of [exactly_one_selector]: [-lf 1] with the other
    selectors [null] counts four selectors; with the others [undefined] it
    counts one. *)
Lemma exactly_one_selector_witness :
  (numExclusiveArgs (Fixture.fight_index_nulls 1) <> 1 /\
   Fixture.run (Fixture.fight_index_nulls 1) Fixture.scenario_disk =
     (Exited (-2),
      {| trace := [EConsoleError "Error: Must specify exactly one of -lf, -lz, or -fr
";
                   EPrintHelp];
         exitCode := 0;
         files := Fixture.scenario_disk |})) /\
  (numExclusiveArgs (Fixture.fight_index 1) = 1 /\
   is_null (file (Fixture.fight_index 1)) = false /\
   exists rest,
     trace (Fixture.run (Fixture.fight_index 1) Fixture.scenario_disk).2
       = ECreateReadStream (JSVal "log") :: rest /\
     EPrintHelp ∉ rest).
Proof.
  split.
  - split; [vm_compute; discriminate|].
    apply (proj1 (exactly_one_selector (Fixture.fight_index_nulls 1)
                    Fixture.scenario_disk)).
    vm_compute. discriminate.
  - split; [reflexivity|]. split; [reflexivity|].
    apply (proj2 (exactly_one_selector (Fixture.fight_index 1)
                    Fixture.scenario_disk)); reflexivity.
Defined.


(** The scenario has two fights: index 2 writes the second, index 3 is out
    of range. *)
Example second_fight_run :
  files (Fixture.run (Fixture.fight_index 2) Fixture.scenario_disk).2 !! "Boss2.log"
  = Some ["Player0|FightStart:Boss2"; "Player1|Hit"; "Player2|FightEnd"].
Proof. vm_compute. reflexivity. Qed.

Example missing_fight_run :
  Fixture.run (Fixture.fight_index 3) Fixture.scenario_disk =
    (Exited (-3),
     {| trace := [ECreateReadStream (JSVal "log");
                  EConsoleError "Error: missing fight: 3"];
        exitCode := 1;
        files := Fixture.scenario_disk |}).
Proof. vm_compute. reflexivity. Qed.

(** The first zone runs from one zone change to the next. *)
Example first_zone_run :
  splitters_built (trace (Fixture.run (Fixture.zone_index 1) Fixture.scenario_disk).2)
    = [("ZoneChange:A", "ZoneChange:B", true, false)] /\
  streams_created (trace (Fixture.run (Fixture.zone_index 1) Fixture.scenario_disk).2)
    = ["A.log"].
Proof. split; vm_compute; reflexivity. Qed.

(** The inputs of [dropped_lines_not_written]: the first fight of the
    scenario, whose chat line the anonymizer drops. *)
Lemma dropped_lines_not_written_witness :
  file (Fixture.fight_index 1) = JSVal "log" /\
  files (SplitLog.initial Fixture.scenario_disk) !! "log" = Some Fixture.scenario_log /\
  (is_null (force (Fixture.fight_index 1)) = false \/
   files (SplitLog.initial Fixture.scenario_disk) !! "Boss1.log" = None) /\
  exists s' evs,
    SplitLog.writeFile (Fixture.fight_index 1) "Boss1.log"
      (Some "FightStart:Boss1") (Some "FightEnd")
      (SplitLog.initial Fixture.scenario_disk) = Next Pending s' /\
    trace s' = trace (SplitLog.initial Fixture.scenario_disk) ++ evs /\
    written "Boss1.log" evs =
      ["Player0|FightStart:Boss1"; "Player1|Hit"; "Player2|FightEnd"] /\
    files s' !! "Boss1.log" =
      Some ["Player0|FightStart:Boss1"; "Player1|Hit"; "Player2|FightEnd"] /\
    validated evs =
      ["Player0|FightStart:Boss1"; "Player1|Hit"; "Player2|FightEnd"].
Proof.
  split; [reflexivity|]. split; [reflexivity|]. split; [left; reflexivity|].
  exact (dropped_lines_not_written (Fixture.fight_index 1) "Boss1.log"
           "FightStart:Boss1" "FightEnd" (SplitLog.initial Fixture.scenario_disk)
           "log" Fixture.scenario_log eq_refl eq_refl (or_introl eq_refl)).
Defined.

(** With [no_anonymize] set, the same fight is written as the splitter
    emits it, chat line included, and nothing is validated. *)
Example verbatim_run :
  let r := Fixture.run (Fixture.fight_index_verbatim 1) Fixture.scenario_disk in
  files r.2 !! "Boss1.log" = Some ["FightStart:Boss1"; "Hit"; "Chat:hello"; "FightEnd"] /\
  validated (trace r.2) = [].
Proof. split; vm_compute; reflexivity. Qed.

(** The inputs of [validation_after_all_lines], with anonymization on:
    the first fight of the scenario log ends at the fifth of nine lines. *)
Lemma validation_after_all_lines_witness :
  file (Fixture.fight_index 1) = JSVal "log" /\
  files (SplitLog.initial Fixture.scenario_disk) !! "log" = Some Fixture.scenario_log /\
  (is_null (force (Fixture.fight_index 1)) = false \/
   files (SplitLog.initial Fixture.scenario_disk) !! "Boss1.log" = None) /\
  lines_fed (new_Splitter "FightStart:Boss1" "FightEnd" true false)
            Fixture.scenario_log =
    ["ZoneChange:A"; "FightStart:Boss1"; "Hit"; "Chat:hello"; "FightEnd"] /\
  exists s' evs,
    SplitLog.writeFile (Fixture.fight_index 1) "Boss1.log"
      (Some "FightStart:Boss1") (Some "FightEnd")
      (SplitLog.initial Fixture.scenario_disk) = Next Pending s' /\
    trace s' = trace (SplitLog.initial Fixture.scenario_disk) ++ evs /\
    exists before after,
      evs = before ++ EValidateIds :: after
            ++ (EOnLine <$> ["FightStart:Boss2"; "Hit"; "FightEnd"; "ZoneChange:B"]) /\
      Forall (fun e => is_validation e = false) before /\
      on_lines before =
        ["ZoneChange:A"; "FightStart:Boss1"; "Hit"; "Chat:hello"; "FightEnd"] /\
      Forall (fun e => e <> EValidateIds /\ is_line_work e = false) after /\
      validated after = written "Boss1.log" before.
Proof.
  split; [reflexivity|]. split; [reflexivity|]. split; [left; reflexivity|].
  split; [reflexivity|].
  exact (validation_after_all_lines (Fixture.fight_index 1) "Boss1.log"
           "FightStart:Boss1" "FightEnd" (SplitLog.initial Fixture.scenario_disk)
           "log" Fixture.scenario_log eq_refl eq_refl (or_introl eq_refl)).
Defined.

(** C7 as stated fails on the script.  The first fight of the scenario
    log ends at its fifth line, where the handler closes the reader and
    the ['close'] handler validates; the four lines that follow came in
    the same chunk, and each of them is still handed to the ['line']
    handler after [validateIds].  However the trace is cut at a call of
    [validateIds], a line event follows the cut. *)
Lemma lines_follow_validation :
  let evs :=
    trace (final (SplitLog.writeFile (Fixture.fight_index 1) "Boss1.log"
                    (Some "FightStart:Boss1") (Some "FightEnd")
                    (SplitLog.initial Fixture.scenario_disk))) in
  (exists before after,
     evs = before ++ EValidateIds :: after /\
     on_lines after = ["FightStart:Boss2"; "Hit"; "FightEnd"; "ZoneChange:B"]) /\
  (forall before after,
     evs = before ++ EValidateIds :: after ->
     ~ Forall (fun e => is_line_work e = false) after).
Proof.
  split.
  - exists [ENewAnonymizer; ECreateReadStream (JSVal "log");
            ECreateWriteStream "Boss1.log" flags_w;
            ENewSplitter "FightStart:Boss1" "FightEnd" true false;
            EOnLine "ZoneChange:A"; EOnLine "FightStart:Boss1";
            EWrite "Boss1.log" "Player0|FightStart:Boss1";
            EOnLine "Hit"; EWrite "Boss1.log" "Player1|Hit";
            EOnLine "Chat:hello"; EOnLine "FightEnd";
            EWrite "Boss1.log" "Player2|FightEnd"; EWriterEnd "Boss1.log";
            EConsoleLog "Wrote: Boss1.log"],
           [EValidateLine "Player0|FightStart:Boss1";
            EValidateLine "Player1|Hit"; EValidateLine "Player2|FightEnd";
            EWriterClose "Boss1.log"; EOnLine "FightStart:Boss2";
            EOnLine "Hit"; EOnLine "FightEnd"; EOnLine "ZoneChange:B"].
    split; vm_compute; reflexivity.
  - intros before after Hcut Hall.
    assert (last (before ++ EValidateIds :: after) = Some (EOnLine "ZoneChange:B"))
      as Hlast by (rewrite <- Hcut; vm_compute; reflexivity).
    rewrite last_app, last_cons in Hlast.
    destruct (last after) as [e|] eqn:Hafter; [|discriminate Hlast].
    injection Hlast as ->.
    apply last_Some_elem_of in Hafter.
    rewrite Forall_forall in Hall. by specialize (Hall _ Hafter).
Qed.

(** C8 fails on the script.  [-f log -lf 1] without [--force], over an
    older [Boss1.log]: the options that were not given are [undefined],
    as they must be for the run to pass the selector check of line 65, so
    [args.force === null] is false, the write stream is opened with ['w']
    and the existing file is overwritten.  No error is printed and the run
    does not exit with code -1, where the comment of line 101 and the
    claim have the open fail. *)
Theorem absent_force_overwrites :
  force (Fixture.fight_index 1) = JSUndefined /\
  numExclusiveArgs (Fixture.fight_index 1) = 1 /\
  Fixture.disk_with_output !! "Boss1.log" = Some ["old"] /\
  (Fixture.run (Fixture.fight_index 1) Fixture.disk_with_output).1 = Drained /\
  trace (Fixture.run (Fixture.fight_index 1) Fixture.disk_with_output).2 =
    [ECreateReadStream (JSVal "log"); ENewAnonymizer;
     ECreateReadStream (JSVal "log");
     ECreateWriteStream "Boss1.log" flags_w;
     ENewSplitter "FightStart:Boss1" "FightEnd" true false;
     EOnLine "ZoneChange:A"; EOnLine "FightStart:Boss1";
     EWrite "Boss1.log" "Player0|FightStart:Boss1";
     EOnLine "Hit"; EWrite "Boss1.log" "Player1|Hit";
     EOnLine "Chat:hello"; EOnLine "FightEnd";
     EWrite "Boss1.log" "Player2|FightEnd";
     EWriterEnd "Boss1.log"; EConsoleLog "Wrote: Boss1.log";
     EValidateIds; EValidateLine "Player0|FightStart:Boss1";
     EValidateLine "Player1|Hit"; EValidateLine "Player2|FightEnd";
     EWriterClose "Boss1.log"; EOnLine "FightStart:Boss2";
     EOnLine "Hit"; EOnLine "FightEnd"; EOnLine "ZoneChange:B"] /\
  files (Fixture.run (Fixture.fight_index 1) Fixture.disk_with_output).2
    !! "Boss1.log" =
    Some ["Player0|FightStart:Boss1"; "Player1|Hit"; "Player2|FightEnd"].
Proof. repeat split; vm_compute; reflexivity. Qed.

(** The open fails only for a [force] that is [null]: the error object is
    printed, the run exits with code -1 and the older file is kept. *)
Example null_force_run :
  force (Fixture.fight_index_no_force 1) = JSNull /\
  Fixture.run (Fixture.fight_index_no_force 1) Fixture.disk_with_output =
    (Exited (-1),
     {| trace := [ECreateReadStream (JSVal "log"); ENewAnonymizer;
                  ECreateReadStream (JSVal "log");
                  ECreateWriteStream "Boss1.log" flags_wx;
                  ENewSplitter "FightStart:Boss1" "FightEnd" true false;
                  EConsoleErrorObject (EEXIST "Boss1.log")];
        exitCode := 1;
        files := Fixture.disk_with_output |}).
Proof. split; vm_compute; reflexivity. Qed.

(** What the overwriting run leaves on disk. *)
Example overwriting_run :
  files (Fixture.run (Fixture.fight_index_force 1) Fixture.disk_with_output).2
    !! "Boss1.log"
  = Some ["Player0|FightStart:Boss1"; "Player1|Hit"; "Player2|FightEnd"].
Proof. vm_compute. reflexivity. Qed.

(** C9 fails on the script.  With [-lf 0] as the one selector the run
    passes the selector check and enters the fight-regex branch, whose
    test [!== null] holds for the [undefined] pattern: it writes the first
    fight that has a name and prints no error at all, where the claim has
    it end in the final [else] branch with ['Internal error']. *)
Theorem index_zero_takes_regex_branch :
  numExclusiveArgs (Fixture.fight_index 0) = 1 /\
  (Fixture.run (Fixture.fight_index 0) Fixture.scenario_disk).1 = Drained /\
  console_errors (trace (Fixture.run (Fixture.fight_index 0) Fixture.scenario_disk).2)
    = [] /\
  streams_created (trace (Fixture.run (Fixture.fight_index 0) Fixture.scenario_disk).2)
    = ["Boss1.log"].
Proof. repeat split; vm_compute; reflexivity. Qed.

(** A run that builds a splitter: [includeGlobals] is [true]. *)
Example splitter_of_first_fight :
  splitters_built (trace (Fixture.run (Fixture.fight_index 1) Fixture.scenario_disk).2)
  = [("FightStart:Boss1", "FightEnd", true, false)].
Proof. vm_compute. reflexivity. Qed.

End Scenario.

(** ** Relations between the states of a computation *)

Section Steps.

Context {A B : Type} (R : state -> state -> Prop) `{!PreOrder R}.

Lemma steps_ret (a : A) : steps R (mret a).
Proof. intros s. simpl. reflexivity. Qed.

Lemma steps_process_exit code : steps R (process_exit (A := A) code).
Proof. intros s. simpl. reflexivity. Qed.

Lemma steps_throw : steps R (throw (A := A)).
Proof. intros s. simpl. reflexivity. Qed.

Lemma steps_bind (m : proc A) (f : A -> proc B) :
  steps R m -> (forall a, steps R (f a)) -> steps R (m ≫= f).
Proof.
  intros Hm Hf s. unfold mbind, proc_bind.
  pose proof (Hm s) as H1.
  destruct (m s) as [a s1|o s1]; simpl in *; [|done].
  etrans; [exact H1|]. apply Hf.
Qed.

End Steps.

Lemma steps_await (R : state -> state -> Prop) `{!PreOrder R} p : steps R (await p).
Proof. intros s. destruct p; simpl; reflexivity. Qed.

Lemma steps_get_exitCode (R : state -> state -> Prop) `{!PreOrder R} :
  steps R get_exitCode.
Proof. intros s. simpl. reflexivity. Qed.

Lemma steps_stream_lines (R : state -> state -> Prop) `{!PreOrder R} stream :
  steps R (stream_lines stream).
Proof. intros s. destruct stream; simpl; reflexivity. Qed.

#[local] Instance adding_preorder (P : event -> Prop) : PreOrder (adding P).
Proof.
  split.
  - intros s. exists []. by rewrite app_nil_r.
  - intros s1 s2 s3 (evs1 & H1 & Hall1) (evs2 & H2 & Hall2).
    exists (evs1 ++ evs2). rewrite H2, H1, (assoc_L (++)).
    split; [done|]. by apply Forall_app.
Qed.

#[local] Instance others_kept_preorder (out : string) : PreOrder (others_kept out).
Proof.
  split.
  - by intros s p _.
  - intros s1 s2 s3 H1 H2 p Hp. by rewrite (H2 p Hp), (H1 p Hp).
Qed.

#[local] Instance framed_preorder : PreOrder framed.
Proof.
  split.
  - intros s. exists []. by rewrite app_nil_r.
  - intros s1 s2 s3 (evs1 & H1 & Hf1) (evs2 & H2 & Hf2).
    exists (evs1 ++ evs2). rewrite H2, H1, (assoc_L (++)).
    split; [done|]. intros p Hp.
    unfold streams_created in Hp. rewrite omap_app in Hp.
    rewrite Hf2, Hf1; [done|..]; intros Hin; apply Hp, elem_of_app; auto.
Qed.

(** [adds P] is [steps] for the relation [adding P]. *)
Lemma steps_adding {A} (P : event -> Prop) (m : proc A) :
  steps (adding P) m <-> adds P m.
Proof. done. Qed.

(** The handlers of [writeFile], for any relation that the calls they make
    respect. *)
Section Handlers.

Context `{SC : SplitterClass} `{AC : AnonymizerClass} `{RL : ReadlineClass}.
Context (R : state -> state -> Prop) `{!PreOrder R}.
Variable args : SplitLogArgs.
Variable out : string.

Hypothesis R_line : forall line, steps R (emit (EOnLine line)).
Hypothesis R_write : forall line, steps R (writer_write out line).
Hypothesis R_notify : forall msg, steps R (notify msg).
Hypothesis R_end : steps R (emit (EWriterEnd out)).
Hypothesis R_wrote : steps R (emit (EConsoleLog ("Wrote: " +:+ out))).
Hypothesis R_validateIds : steps R (emit EValidateIds).
Hypothesis R_validateLine : forall line, steps R (emit (EValidateLine line)).
Hypothesis R_close : steps R (emit (EWriterClose out)).

Lemma steps_notify_all msgs : steps R (notify_all msgs).
Proof.
  induction msgs as [|m rest IH]; simpl; [apply steps_ret; done|].
  apply steps_bind; [done|apply R_notify|]. by intros _.
Qed.

Lemma steps_onSplitterLine na line an lines :
  steps R (SplitLog.onSplitterLine out na line an lines).
Proof.
  unfold SplitLog.onSplitterLine. destruct (negb na).
  - destruct (anonymizer_process an line) as [[an' [w|]] reports].
    + apply steps_bind; [done|apply steps_notify_all|]. intros _.
      apply steps_bind; [done|apply R_write|]. intros _. by apply steps_ret.
    + apply steps_bind; [done|apply steps_notify_all|]. intros _.
      by apply steps_ret.
  - apply steps_bind; [done|apply R_write|]. intros _. by apply steps_ret.
Qed.

Lemma steps_runSplitterActions na acts an lines :
  steps R (SplitLog.runSplitterActions out na acts an lines).
Proof.
  revert an lines. induction acts as [|[line|msg] rest IH]; intros an lines; simpl.
  - by apply steps_ret.
  - apply steps_bind; [done|apply steps_onSplitterLine|]. intros [an' lines'].
    apply IH.
  - apply steps_bind; [done|apply R_notify|]. intros _. apply IH.
Qed.

Lemma steps_lineReader_lines na input sp an lines :
  steps R (SplitLog.lineReader_lines out na input sp an lines).
Proof.
  revert sp an lines. induction input as [|line rest IH]; intros sp an lines; simpl.
  - by apply steps_ret.
  - apply steps_bind; [done|apply R_line|]. intros _.
    destruct (processWithCallback sp line false) as [sp' acts].
    apply steps_bind; [done|apply steps_runSplitterActions|]. intros [an' lines'].
    destruct (isDone sp'); [by apply steps_ret | apply IH].
Qed.

Lemma steps_lineReader_buffered na input sp an lines :
  steps R (SplitLog.lineReader_buffered out na input sp an lines).
Proof.
  revert sp an lines. induction input as [|line rest IH]; intros sp an lines; simpl.
  - by apply steps_ret.
  - apply steps_bind; [done|apply R_line|]. intros _.
    destruct (processWithCallback sp line false) as [sp' acts].
    apply steps_bind; [done|apply steps_runSplitterActions|]. intros [an' lines'].
    apply IH.
Qed.

Lemma steps_validateLines an lines : steps R (SplitLog.validateLines an lines).
Proof.
  revert an. induction lines as [|line rest IH]; intros an; simpl.
  - by apply steps_ret.
  - apply steps_bind; [done|apply R_validateLine|]. intros _.
    destruct (validateLine an line) as [an' reports].
    apply steps_bind; [done|apply steps_notify_all|]. intros _. apply IH.
Qed.

Lemma steps_lineReader_close na an lines :
  steps R (SplitLog.lineReader_close out na an lines).
Proof.
  unfold SplitLog.lineReader_close.
  apply steps_bind; [done|apply R_end|]. intros _.
  apply steps_bind; [done|apply R_wrote|]. intros _.
  apply steps_bind; [done| |].
  - destruct (negb na); [|by apply steps_ret].
    apply steps_bind; [done|apply R_validateIds|]. intros _.
    destruct (validateIds an) as [an' reports].
    apply steps_bind; [done|apply steps_notify_all|]. intros _.
    apply steps_validateLines.
  - intros an''. apply steps_bind; [done|apply R_close|]. intros _.
    by apply steps_ret.
Qed.

Variables startLine endLine : string.

Hypothesis R_splitter :
  steps R (emit (ENewSplitter startLine endLine true
                              (nullish (analysis_filter args) false))).
Hypothesis R_writer_error : steps R (errorFunc_error (EEXIST out)).

Lemma steps_writeFile_handlers stream opened :
  steps R (writeFile_handlers args out startLine endLine stream opened).
Proof.
  unfold writeFile_handlers.
  apply steps_bind; [done|apply R_splitter|]. intros _.
  apply steps_bind; [done|by apply steps_stream_lines|]. intros input.
  destruct (negb opened).
  - apply steps_bind; [done|apply R_writer_error|]. intros _.
    by apply steps_process_exit.
  - apply steps_bind; [done|apply steps_lineReader_lines|].
    intros [[[sp' unread] an'] lines].
    apply steps_bind; [done|apply steps_lineReader_close|]. intros an''.
    apply steps_bind; [done|apply steps_lineReader_buffered|]. intros _.
    by apply steps_ret.
Qed.

End Handlers.

(** [writeFile] is its guards, the creation of the two streams, and the
    handlers. *)
Lemma writeFile_unfold `{SC : SplitterClass} `{AC : AnonymizerClass}
    `{RL : ReadlineClass}
    (args : SplitLogArgs) (out startLine endLine : string) :
  SplitLog.writeFile args out (Some startLine) (Some endLine) =
  (emit ENewAnonymizer;;
   stream ← createReadStream (file args);
   opened ← createWriteStream out (if is_null (force args) then flags_wx else flags_w);
   writeFile_handlers args out startLine endLine stream opened).
Proof. reflexivity. Qed.

(** ** Which files a run changes *)

Lemma framed_quiet {A} (m : proc A) :
  (forall s, exists evs, trace (final (m s)) = trace s ++ evs /\
                         files (final (m s)) = files s) ->
  steps framed m.
Proof.
  intros Hm s. destruct (Hm s) as (evs & Htr & Hf).
  exists evs. split; [done|]. intros p _. by rewrite Hf.
Qed.

Lemma framed_emit e : steps framed (emit e).
Proof. apply framed_quiet. intros s. by exists [e]. Qed.

Lemma framed_errorFunc msg : steps framed (errorFunc msg).
Proof. apply framed_quiet. intros s. by exists [EConsoleError msg]. Qed.

Lemma framed_errorFunc_error err : steps framed (errorFunc_error err).
Proof. apply framed_quiet. intros s. by exists [EConsoleErrorObject err]. Qed.

Lemma framed_createReadStream path : steps framed (createReadStream path).
Proof.
  apply framed_quiet. intros s. exists [ECreateReadStream path].
  unfold createReadStream. by destruct path.
Qed.

Lemma others_kept_same_files {A} out (m : proc A) :
  (forall s, files (final (m s)) = files s) -> steps (others_kept out) m.
Proof. intros Hm s p _. by rewrite Hm. Qed.

Lemma others_kept_writer_write out line :
  steps (others_kept out) (writer_write out line).
Proof. intros s p Hp. unfold writer_write. simpl. by rewrite lookup_insert_ne. Qed.

Section Frame.

Context `{ET : EncounterTools} `{SC : SplitterClass} `{AC : AnonymizerClass}
        `{RL : ReadlineClass} `{RE : RegExpEngine}.
Variable args : SplitLogArgs.

Lemma handlers_keep_others out startLine endLine stream opened :
  steps (others_kept out) (writeFile_handlers args out startLine endLine stream opened).
Proof.
  apply steps_writeFile_handlers; try apply _;
    try (intros; by apply others_kept_same_files);
    try (by apply others_kept_same_files).
  intros line. apply others_kept_writer_write.
Qed.

Lemma handlers_add out startLine endLine stream opened :
  steps (adding (fun _ => True))
        (writeFile_handlers args out startLine endLine stream opened).
Proof.
  apply steps_writeFile_handlers; try apply _; intros;
    first [ by apply adds_emit | by apply adds_writer_write
          | by apply adds_notify | by apply adds_errorFunc ].
Qed.

Lemma framed_writeFile out startLine endLine :
  steps framed (SplitLog.writeFile args out startLine endLine).
Proof.
  destruct startLine as [startLine|].
  2:{ apply framed_quiet. intros s.
      by exists [EConsoleError "Error: missing startLine"]. }
  destruct endLine as [endLine|].
  2:{ apply framed_quiet. intros s.
      by exists [EConsoleError "Error: missing endLine"]. }
  rewrite writeFile_unfold.
  apply steps_bind; [apply _|apply framed_emit|]. intros _.
  apply steps_bind; [apply _|apply framed_createReadStream|]. intros stream.
  intros s. unfold mbind, proc_bind.
  set (fl := if is_null (force args) then flags_wx else flags_w).
  assert (exists opened s2,
    createWriteStream out fl s = Next opened s2 /\
    trace s2 = trace s ++ [ECreateWriteStream out fl] /\
    others_kept out s s2) as (opened & s2 & -> & Htr2 & Hk2).
  { unfold createWriteStream.
    destruct fl; [destruct (files s !! out)|]; eexists _, _;
      (split; [done|]); (split; [done|]); intros p Hp; simpl;
      by rewrite ?lookup_insert_ne. }
  destruct (handlers_add out startLine endLine stream opened s2) as (evs & Htr & _).
  pose proof (handlers_keep_others out startLine endLine stream opened s2) as Hk.
  exists (ECreateWriteStream out fl :: evs). split.
  - rewrite Htr, Htr2. by rewrite <- (assoc_L (++)).
  - intros p Hp. assert (p <> out) as Hne.
    { intros ->. apply Hp. simpl. apply list_elem_of_here. }
    by rewrite (Hk p Hne), (Hk2 p Hne).
Qed.

Lemma framed_write_each records : steps framed (write_each args records).
Proof.
  induction records as [|r rest IH]; simpl; [apply steps_ret; apply _|].
  apply steps_bind; [apply _|apply framed_writeFile|]. intros p.
  apply steps_bind; [apply _|apply steps_await; apply _|]. intros _. exact IH.
Qed.

Lemma framed_make_regex pattern : steps framed (SplitLog.make_regex pattern).
Proof.
  unfold SplitLog.make_regex.
  destruct (new_RegExp _ _); [apply steps_ret | apply steps_throw]; apply _.
Qed.

(** One step of a proof that a computation is [framed]. *)
Ltac framed_step :=
  first
    [ apply steps_ret; apply _ | apply steps_process_exit; apply _
    | apply steps_throw; apply _ | apply steps_await; apply _
    | apply steps_get_exitCode; apply _ | apply steps_stream_lines; apply _
    | apply framed_emit | apply framed_errorFunc | apply framed_createReadStream
    | apply framed_writeFile | apply framed_make_regex
    | apply steps_bind; [apply _| |intros ?] ].

Lemma framed_dispatch collector : steps framed (SplitLog.dispatch args collector).
Proof.
  unfold SplitLog.dispatch.
  destruct (strict_eq_num (search_fights args) (-1)); [repeat framed_step|].
  destruct (strict_eq_num (search_zones args) (-1)); [repeat framed_step|].
  destruct (truthy_num (search_fights args)).
  { destruct (js_index _ _); repeat framed_step. }
  destruct (truthy_num (search_zones args)).
  { destruct (js_index _ _); repeat framed_step. }
  destruct (negb (is_null (fight_regex args))).
  { apply steps_bind; [apply _|apply framed_make_regex|]. intros regex.
    apply steps_bind; [apply _| |intros _; repeat framed_step].
    intros s. rewrite fight_loop_write_each. apply framed_write_each. }
  destruct (negb (is_null (zone_regex args))).
  { apply steps_bind; [apply _|apply framed_make_regex|]. intros regex.
    apply steps_bind; [apply _| |intros _; repeat framed_step].
    intros s. rewrite zone_loop_write_each. apply framed_write_each. }
  repeat framed_step.
Qed.

Lemma framed_script : steps framed (SplitLog.script args).
Proof.
  unfold SplitLog.script, printHelpAndError, SplitLog.makeCollectorFromPrepass.
  destruct (is_null (file args)); [repeat framed_step|].
  destruct (negb (numExclusiveArgs args =? 1)); [repeat framed_step|].
  apply steps_bind; [apply _|repeat framed_step|]. intros collector.
  apply framed_dispatch.
Qed.

(** X7.  A run creates at most one write stream, and every file under
    whose name it has created no write stream is left as it was.  (The
    name of the one write stream comes from [generateFileName]; nothing
    keeps it from being the name of the log.) *)
Theorem run_changes_one_file (disk : gmap string (list string)) :
  (length (streams_created (trace (SplitLog.run args disk).2)) <= 1)%nat /\
  (forall p, p ∉ streams_created (trace (SplitLog.run args disk).2) ->
             files (SplitLog.run args disk).2 !! p = disk !! p).
Proof.
  split; [apply at_most_one_output|].
  destruct (framed_script (SplitLog.initial disk)) as (evs & Htr & Hf).
  unfold SplitLog.run, SplitLog.ending.
  destruct (SplitLog.script args (SplitLog.initial disk)); simpl in *;
    rewrite Htr; exact Hf.
Qed.

End Frame.

(** ** Where the output of a run comes from *)

Section Provenance.

Context `{ET : EncounterTools} `{SC : SplitterClass} `{AC : AnonymizerClass}
        `{RL : ReadlineClass} `{RE : RegExpEngine}.
Variable args : SplitLogArgs.

(** After the selector check and the prepass over a readable log, the
    script is the dispatch on the collector of the prepass. *)
Lemma script_dispatch (disk : gmap string (list string)) (f : string)
    (input : list string) :
  file args = JSVal f ->
  disk !! f = Some input ->
  numExclusiveArgs args = 1 ->
  SplitLog.script args (SplitLog.initial disk) =
    SplitLog.dispatch args (prepass_collector input) (after_prepass f disk).
Proof.
  intros Hfile Hin Hone. unfold SplitLog.script.
  rewrite Hfile, Hone. simpl.
  unfold mbind at 1, proc_bind at 1, SplitLog.logFileName.
  by rewrite Hfile, (prepass_reads f input disk Hin).
Qed.

(** With any other count the run is the usage error. *)
Lemma script_usage (disk : gmap string (list string)) :
  numExclusiveArgs args <> 1 ->
  Forall (fun e => e = EPrintHelp \/ exists msg, e = EConsoleError msg)
         (trace (SplitLog.run args disk).2).
Proof.
  intros Hne. unfold SplitLog.run, SplitLog.script.
  destruct (is_null (file args)).
  { apply Forall_cons_2; [right; eauto|]. apply Forall_cons_2; [by left|done]. }
  destruct (numExclusiveArgs args =? 1) eqn:Hone; [by apply Z.eqb_eq in Hone|].
  apply Forall_cons_2; [right; eauto|]. apply Forall_cons_2; [by left|done].
Qed.

Lemma adds_for_output out startLine endLine :
  adds (for_output out startLine endLine (nullish (analysis_filter args) false))
       (SplitLog.writeFile args out startLine endLine).
Proof.
  destruct startLine as [startLine|]; [|repeat adds_step; done].
  destruct endLine as [endLine|]; [|repeat adds_step; done].
  rewrite writeFile_unfold.
  apply adds_bind; [by adds_step|]. intros _.
  apply adds_bind; [by adds_step|]. intros stream.
  apply adds_bind; [adds_step; simpl; eauto|]. intros opened.
  change (steps (adding (for_output out (Some startLine) (Some endLine)
                                    (nullish (analysis_filter args) false)))
                (writeFile_handlers args out startLine endLine stream opened)).
  apply steps_writeFile_handlers; try apply _; intros;
    first [ by apply adds_emit | by apply adds_writer_write
          | by apply adds_notify | by apply adds_errorFunc ].
Qed.

Lemma for_output_from_records (c : EncounterCollector) (r : Fight + Zone) e :
  r ∈ all_records c ->
  for_output (generateFileName r) (record_startLine r) (record_endLine r)
             (nullish (analysis_filter args) false) e ->
  from_records args c e.
Proof. intros Hr He. destruct e; simpl; eauto. Qed.

Lemma adds_record (c : EncounterCollector) (r : Fight + Zone) :
  r ∈ all_records c ->
  adds (from_records args c) (writeFile_record args r).
Proof.
  intros Hr. eapply adds_weaken; [|apply adds_for_output].
  intros e. by apply for_output_from_records.
Qed.

Lemma adds_records (c : EncounterCollector) (rs : list (Fight + Zone)) :
  (forall r, r ∈ rs -> r ∈ all_records c) ->
  adds (from_records args c) (write_each args rs).
Proof.
  induction rs as [|r rest IH]; intros Hrs; simpl; [apply adds_ret|].
  apply adds_bind; [apply adds_record, Hrs, list_elem_of_here|]. intros p.
  apply adds_bind; [apply adds_await|]. intros _.
  apply IH. intros r' Hr'. by apply Hrs, list_elem_of_further.
Qed.

Lemma js_index_elem_of {X} (arr : list X) (i : Z) (x : X) :
  js_index arr i = Some x -> x ∈ arr.
Proof.
  unfold js_index. destruct (decide (0 <= i)); [|done].
  apply list_elem_of_lookup_2.
Qed.

Lemma adds_dispatch_from_records (c : EncounterCollector) :
  adds (from_records args c) (SplitLog.dispatch args c).
Proof.
  unfold SplitLog.dispatch.
  destruct (strict_eq_num (search_fights args) (-1)); [repeat adds_step; done|].
  destruct (strict_eq_num (search_zones args) (-1)); [repeat adds_step; done|].
  destruct (truthy_num (search_fights args)).
  { destruct (js_index _ _) as [fight|] eqn:Hidx; [|repeat adds_step; done].
    apply adds_bind; [|intros p; repeat adds_step].
    apply (adds_record c (inl fight)), elem_of_app. left.
    apply list_elem_of_fmap. exists fight. split; [done|].
    by eapply js_index_elem_of. }
  destruct (truthy_num (search_zones args)).
  { destruct (js_index _ _) as [zone|] eqn:Hidx; [|repeat adds_step; done].
    apply adds_bind; [|intros p; repeat adds_step].
    apply (adds_record c (inr zone)), elem_of_app. right.
    apply list_elem_of_fmap. exists zone. split; [done|].
    by eapply js_index_elem_of. }
  destruct (negb (is_null (fight_regex args))).
  { apply adds_bind; [apply adds_make_regex|]. intros regex.
    apply adds_bind; [|intros _; repeat adds_step].
    intros s. rewrite fight_loop_write_each. apply adds_records.
    intros r (fight & -> & Hin)%list_elem_of_fmap.
    apply elem_of_app. left. apply list_elem_of_fmap. exists fight.
    split; [done|]. by apply list_elem_of_filter in Hin as [_ ?]. }
  destruct (negb (is_null (zone_regex args))).
  { apply adds_bind; [apply adds_make_regex|]. intros regex.
    apply adds_bind; [|intros _; repeat adds_step].
    intros s. rewrite zone_loop_write_each. apply adds_records.
    intros r (zone & -> & Hin)%list_elem_of_fmap.
    apply elem_of_app. right. apply list_elem_of_fmap. exists zone.
    split; [done|]. by apply list_elem_of_filter in Hin as [_ ?]. }
  repeat adds_step; done.
Qed.

Lemma run_from_records (disk : gmap string (list string)) (f : string)
    (input : list string) :
  file args = JSVal f ->
  disk !! f = Some input ->
  Forall (from_records args (prepass_collector input))
         (trace (SplitLog.run args disk).2).
Proof.
  intros Hfile Hin.
  destruct (decide (numExclusiveArgs args = 1)) as [Hone|Hne].
  - unfold SplitLog.run. rewrite (script_dispatch disk f input Hfile Hin Hone).
    destruct (adds_dispatch_from_records (prepass_collector input)
                (after_prepass f disk)) as (evs & Htr & Hall).
    unfold SplitLog.ending.
    destruct (SplitLog.dispatch _ _ _); simpl in *; rewrite Htr;
      by apply Forall_cons.
  - eapply Forall_impl; [apply (script_usage disk Hne)|].
    by intros e [->|[msg ->]].
Qed.

(** X8.  In a run over a readable log, every write stream is created
    under the name [generateFileName] gives to a fight or zone record of
    the prepass, a record with both boundary lines defined; and every
    splitter is built from the two boundary lines of such a record, with
    [includeGlobals] true and [analysisFilter] taken from the arguments
    ([false] when the flag is null or undefined). *)
Theorem outputs_come_from_records (disk : gmap string (list string)) (f : string)
    (input : list string) :
  file args = JSVal f ->
  disk !! f = Some input ->
  (forall p, p ∈ streams_created (trace (SplitLog.run args disk).2) ->
     exists r, r ∈ all_records (prepass_collector input) /\
               p = generateFileName r /\
               is_Some (record_startLine r) /\ is_Some (record_endLine r)) /\
  (forall sl el g af,
     (sl, el, g, af) ∈ splitters_built (trace (SplitLog.run args disk).2) ->
     exists r, r ∈ all_records (prepass_collector input) /\
               record_startLine r = Some sl /\ record_endLine r = Some el /\
               g = true /\ af = nullish (analysis_filter args) false).
Proof.
  intros Hfile Hin.
  pose proof (run_from_records disk f input Hfile Hin) as Hall.
  rewrite Forall_forall in Hall. split.
  - intros p (e & He & Hp)%list_elem_of_omap.
    destruct e; try done. injection Hp as ->.
    destruct (Hall _ He) as (r & Hr & -> & Hs & He'). by exists r.
  - intros sl el g af (e & He & Hsp)%list_elem_of_omap.
    destruct e; try done. injection Hsp as -> -> -> ->.
    destruct (Hall _ He) as (r & Hr & Hs & He' & Hg & Haf). by exists r.
Qed.

End Provenance.

(** ** The branches of the dispatch *)

Section Branches.

Context `{ET : EncounterTools} `{SC : SplitterClass} `{AC : AnonymizerClass}
        `{RL : ReadlineClass} `{RE : RegExpEngine}.
Variable args : SplitLogArgs.

Lemma one_selector_fight_regex pattern :
  fight_regex args = JSVal pattern -> numExclusiveArgs args = 1 ->
  search_fights args = JSUndefined /\ search_zones args = JSUndefined /\
  zone_regex args = JSUndefined.
Proof.
  unfold numExclusiveArgs. simpl. intros ->. simpl.
  destruct (search_fights args), (search_zones args), (zone_regex args);
    simpl; intros; try lia; done.
Qed.

Lemma one_selector_zone_regex pattern :
  zone_regex args = JSVal pattern -> numExclusiveArgs args = 1 ->
  search_fights args = JSUndefined /\ search_zones args = JSUndefined /\
  fight_regex args = JSUndefined.
Proof.
  unfold numExclusiveArgs. simpl. intros ->. simpl.
  destruct (search_fights args), (search_zones args), (fight_regex args);
    simpl; intros; try lia; done.
Qed.

(** What follows [writeFile] in lines 181-182 and 191-192 never runs. *)
Lemma write_and_exit_stops (r : Fight + Zone) (s : state) :
  write_and_exit args r s =
  match writeFile_record args r s with
  | Next _ s' => Stop Drained s'
  | Stop o s' => Stop o s'
  end.
Proof.
  unfold write_and_exit, mbind, proc_bind.
  destruct (writeFile_record args r s) as [p s'|] eqn:Hw; [|done].
  unfold writeFile_record in Hw.
  by rewrite (writeFile_never_fulfilled _ _ _ _ _ _ _ Hw).
Qed.

(** X1.  With index -1 as the one selector and a readable log, the run
    lists the fights (for [-lf -1]) or the zones (for [-lz -1]) found by
    the prepass and exits with code 0.  Nothing else happens: no output
    file is opened and the disk is unchanged. *)
Theorem listing_writes_nothing (disk : gmap string (list string)) (f : string)
    (input : list string) :
  file args = JSVal f ->
  disk !! f = Some input ->
  numExclusiveArgs args = 1 ->
  (search_fights args = JSVal (-1) ->
   SplitLog.run args disk =
     (Exited 0,
      {| trace := [ECreateReadStream (JSVal f); EPrintCollectedFights];
         exitCode := 0; files := disk |})) /\
  (search_zones args = JSVal (-1) ->
   SplitLog.run args disk =
     (Exited 0,
      {| trace := [ECreateReadStream (JSVal f); EPrintCollectedZones];
         exitCode := 0; files := disk |})).
Proof.
  intros Hfile Hin Hone. unfold SplitLog.run.
  rewrite (script_dispatch args disk f input Hfile Hin Hone).
  unfold SplitLog.dispatch. split; intros Hsel.
  - by rewrite Hsel.
  - destruct (one_selector_zones args (-1) Hsel Hone) as (-> & _ & _).
    by rewrite Hsel.
Qed.

(** X2.  An index below -1 as the one selector is out of range like an
    index that is too large: the run prints the missing-fight error and
    exits with code -3 (the missing-zone error and code -4 for a zone
    index), and the disk is unchanged. *)
Theorem negative_index_is_missing (disk : gmap string (list string)) (f : string)
    (input : list string) (n : Z) :
  file args = JSVal f ->
  disk !! f = Some input ->
  numExclusiveArgs args = 1 ->
  n < -1 ->
  (search_fights args = JSVal n ->
   SplitLog.run args disk =
     (Exited (-3),
      {| trace := [ECreateReadStream (JSVal f);
                   EConsoleError ("Error: missing fight: " +:+ pretty n)];
         exitCode := 1; files := disk |})) /\
  (search_zones args = JSVal n ->
   SplitLog.run args disk =
     (Exited (-4),
      {| trace := [ECreateReadStream (JSVal f);
                   EConsoleError ("Error: missing zone: " +:+ pretty n)];
         exitCode := 1; files := disk |})).
Proof.
  intros Hfile Hin Hone Hneg. unfold SplitLog.run.
  rewrite (script_dispatch args disk f input Hfile Hin Hone).
  assert ((n =? -1) = false) as Hm1 by lia.
  assert (negb (n =? 0) = true) as Hnz by (apply negb_true_iff; lia).
  unfold SplitLog.dispatch. split; intros Hsel.
  - destruct (one_selector_fights args n Hsel Hone) as (-> & _ & _).
    rewrite Hsel. simpl. rewrite Hm1, Hnz.
    unfold js_index. by rewrite decide_False by lia.
  - destruct (one_selector_zones args n Hsel Hone) as (-> & _ & _).
    rewrite Hsel. simpl. rewrite Hm1, Hnz.
    unfold js_index. by rewrite decide_False by lia.
Qed.

(** The fight-regex branch after the prepass. *)
Lemma fight_regex_run (disk : gmap string (list string)) (f : string)
    (input : list string) (pattern : string) :
  file args = JSVal f ->
  disk !! f = Some input ->
  numExclusiveArgs args = 1 ->
  fight_regex args = JSVal pattern ->
  SplitLog.run args disk =
    SplitLog.ending
      ((regex ← SplitLog.make_regex (JSVal pattern);
        SplitLog.fight_loop args regex (fights (prepass_collector input));;
        code ← get_exitCode;
        process_exit (A := unit) code) (after_prepass f disk)).
Proof.
  intros Hfile Hin Hone Hsel. unfold SplitLog.run.
  rewrite (script_dispatch args disk f input Hfile Hin Hone).
  destruct (one_selector_fight_regex pattern Hsel Hone) as (Hsf & Hsz & _).
  unfold SplitLog.dispatch. by rewrite Hsf, Hsz, Hsel.
Qed.

(** X3.  When the fight-name pattern matches no fight, the run ends
    after the prepass with exit code 0: it prints no message, opens no
    output file and leaves the disk unchanged. *)
Theorem no_match_exits_silently (disk : gmap string (list string)) (f : string)
    (input : list string) (pattern : string) (regex : RegExp) :
  file args = JSVal f ->
  disk !! f = Some input ->
  numExclusiveArgs args = 1 ->
  fight_regex args = JSVal pattern ->
  new_RegExp pattern "i" = Some regex ->
  head (filter (fun fight => SplitLog.fight_skipped regex fight = false)
               (fights (prepass_collector input))) = None ->
  SplitLog.run args disk = (Exited 0, after_prepass f disk).
Proof.
  intros Hfile Hin Hone Hsel Hre Hnone.
  rewrite (fight_regex_run disk f input pattern Hfile Hin Hone Hsel).
  unfold SplitLog.make_regex. simpl. rewrite Hre.
  unfold mbind at 1, proc_bind at 1. simpl.
  unfold mbind at 1, proc_bind at 1.
  rewrite fight_loop_write_each.
  apply head_None in Hnone. by rewrite Hnone.
Qed.

(** X4.  When the fight-name pattern matches, the run is the prepass
    followed by [writeFile] for the first matching fight in the order of
    the collector, and for no other fight. *)
Theorem first_match_only (disk : gmap string (list string)) (f : string)
    (input : list string) (pattern : string) (regex : RegExp) (fight : Fight) :
  file args = JSVal f ->
  disk !! f = Some input ->
  numExclusiveArgs args = 1 ->
  fight_regex args = JSVal pattern ->
  new_RegExp pattern "i" = Some regex ->
  head (filter (fun fight => SplitLog.fight_skipped regex fight = false)
               (fights (prepass_collector input))) = Some fight ->
  SplitLog.run args disk =
    SplitLog.ending (write_and_exit args (inl fight) (after_prepass f disk)).
Proof.
  intros Hfile Hin Hone Hsel Hre Hsome.
  rewrite (fight_regex_run disk f input pattern Hfile Hin Hone Hsel).
  unfold SplitLog.make_regex. simpl. rewrite Hre.
  unfold mbind at 1, proc_bind at 1. simpl.
  unfold mbind at 1, proc_bind at 1.
  rewrite fight_loop_write_each.
  apply head_Some in Hsome as [others Hsome]. rewrite Hsome, fmap_cons.
  rewrite write_each_first_only, write_and_exit_stops.
  by destruct (writeFile_record args (inl fight) (after_prepass f disk)).
Qed.

(** X5.  A zone-name pattern as the one selector never reaches the
    zone-regex branch: [args['fight_regex'] !== null] holds for the
    undefined fight pattern, so the dispatch is the fight-regex branch on
    the undefined pattern, and the zone pattern is not used. *)
Theorem zone_pattern_is_not_used (pattern : string)
    (collector : EncounterCollector) (s : state) :
  zone_regex args = JSVal pattern ->
  numExclusiveArgs args = 1 ->
  SplitLog.dispatch args collector s =
    (regex ← SplitLog.make_regex JSUndefined;
     SplitLog.fight_loop args regex (fights collector);;
     code ← get_exitCode;
     process_exit code) s.
Proof.
  intros Hsel Hone.
  destruct (one_selector_zone_regex pattern Hsel Hone) as (Hsf & Hsz & Hfr).
  unfold SplitLog.dispatch. by rewrite Hsf, Hsz, Hfr.
Qed.

(** X11.  A fight-name pattern that [RegExp] rejects is found only after
    the whole prepass: the run then ends with the uncaught exception, with
    no message of its own, no output file and the disk unchanged. *)
Theorem bad_pattern_is_uncaught (disk : gmap string (list string)) (f : string)
    (input : list string) (pattern : string) :
  file args = JSVal f ->
  disk !! f = Some input ->
  numExclusiveArgs args = 1 ->
  fight_regex args = JSVal pattern ->
  new_RegExp pattern "i" = None ->
  SplitLog.run args disk = (Uncaught, after_prepass f disk).
Proof.
  intros Hfile Hin Hone Hsel Hre.
  rewrite (fight_regex_run disk f input pattern Hfile Hin Hone Hsel).
  unfold SplitLog.make_regex. simpl. by rewrite Hre.
Qed.

End Branches.

(** ** How a run ends *)

Section ExitStatus.

Context `{ET : EncounterTools} `{SC : SplitterClass} `{AC : AnonymizerClass}
        `{RL : ReadlineClass} `{RE : RegExpEngine}.
Variable args : SplitLogArgs.

Lemma handlers_stop_outcome out startLine endLine stream opened s o s' :
  writeFile_handlers args out startLine endLine stream opened s = Stop o s' ->
  o = Exited (-1) \/ o = Uncaught.
Proof.
  unfold writeFile_handlers, mbind, proc_bind.
  destruct (emit _ s) as [[] s0|] eqn:E0; [|discriminate E0].
  destruct stream as [input|]; simpl; [|intros [= <- _]; by right].
  destruct (negb opened).
  { intros [= <- _]. by left. }
  destruct (lineReader_lines_steps out (nullish (no_anonymize args) false) input
              (new_Splitter startLine endLine true (nullish (analysis_filter args) false))
              new_Anonymizer [] s0) as (s1 & -> & _).
  destruct (lineReader_close_steps out (nullish (no_anonymize args) false)
              (output_lines (nullish (no_anonymize args) false) new_Anonymizer
                 (splitter_output
                    (new_Splitter startLine endLine true
                       (nullish (analysis_filter args) false)) input)).1
              ([] ++ (output_lines (nullish (no_anonymize args) false) new_Anonymizer
                 (splitter_output
                    (new_Splitter startLine endLine true
                       (nullish (analysis_filter args) false)) input)).2)
              s1) as (an2 & s2 & post & -> & _).
  rewrite lineReader_buffered_late. discriminate.
Qed.

(** [writeFile] stops the run only through its two [process.exit] calls
    or an exception. *)
Lemma writeFile_stop_outcome out startLine endLine s o s' :
  SplitLog.writeFile args out startLine endLine s = Stop o s' ->
  o = Exited (-4) \/ o = Exited (-1) \/ o = Uncaught.
Proof.
  destruct startLine as [startLine|];
    [|unfold SplitLog.writeFile, mbind, proc_bind, errorFunc, process_exit;
      intros [= <- _]; by left].
  destruct endLine as [endLine|];
    [|unfold SplitLog.writeFile, mbind, proc_bind, errorFunc, process_exit;
      intros [= <- _]; by left].
  rewrite writeFile_unfold. unfold mbind, proc_bind.
  destruct (emit ENewAnonymizer s) as [[] s0|] eqn:E0; [|discriminate E0].
  destruct (createReadStream (file args) s0) as [stream s1|o1 s1] eqn:E1.
  2:{ intros [= <- _]. unfold createReadStream in E1.
      destruct (file args); try discriminate E1; injection E1 as <- _; auto. }
  destruct (createWriteStream out _ s1) as [opened s2|] eqn:E2.
  2:{ unfold createWriteStream in E2.
      destruct (if is_null (force args) then flags_wx else flags_w);
        [destruct (files s1 !! out)|]; discriminate E2. }
  intros Hstop. right. by eapply handlers_stop_outcome.
Qed.

Lemma write_each_next records s u s' :
  write_each args records s = Next u s' -> s' = s.
Proof.
  destruct records as [|r rest].
  - simpl. unfold mret, proc_ret. congruence.
  - rewrite write_each_first_only. by destruct (writeFile_record args r s).
Qed.

Lemma record_stop_outcome (r : Fight + Zone) s o s' :
  match writeFile_record args r s with
  | Next _ s1 => Stop Drained s1
  | Stop o1 s1 => Stop (A := unit) o1 s1
  end = Stop o s' ->
  o ∈ [Exited (-1); Exited (-3); Exited (-4); Uncaught; Drained].
Proof.
  destruct (writeFile_record args r s) as [p s1|o1 s1] eqn:Hw.
  - intros [= <- _]. do 4 apply list_elem_of_further. apply list_elem_of_here.
  - intros [= <- _]. unfold writeFile_record in Hw.
    destruct (writeFile_stop_outcome _ _ _ _ _ _ Hw) as [-> | [-> | ->]].
    + do 2 apply list_elem_of_further. apply list_elem_of_here.
    + apply list_elem_of_here.
    + do 3 apply list_elem_of_further. apply list_elem_of_here.
Qed.

Lemma write_each_stop_outcome records s o s' :
  write_each args records s = Stop o s' ->
  o ∈ [Exited (-1); Exited (-3); Exited (-4); Uncaught; Drained].
Proof.
  destruct records as [|r rest]; [done|].
  rewrite write_each_first_only. apply record_stop_outcome.
Qed.

Lemma loop_then_exit_outcome (loop : proc unit) records s o s' :
  (forall s0, loop s0 = write_each args records s0) ->
  exitCode s = 0 ->
  (loop;; code ← get_exitCode; process_exit (A := unit) code) s = Stop o s' ->
  o = Exited 0 /\ s' = s \/
  o ∈ [Exited (-1); Exited (-3); Exited (-4); Uncaught; Drained].
Proof.
  intros Hloop Hzero. unfold mbind, proc_bind. rewrite Hloop.
  destruct (write_each args records s) as [[] s1|o1 s1] eqn:Hw.
  - apply write_each_next in Hw as ->. simpl. rewrite Hzero.
    intros [= <- <-]. by left.
  - intros [= <- _]. right. by eapply write_each_stop_outcome.
Qed.

Lemma dispatch_outcome collector s o s' :
  exitCode s = 0 ->
  SplitLog.dispatch args collector s = Stop o s' ->
  o = Exited 0 /\ streams_created (trace s') = streams_created (trace s) \/
  o ∈ [Exited (-1); Exited (-3); Exited (-4); Uncaught; Drained].
Proof.
  intros Hzero. unfold SplitLog.dispatch.
  destruct (strict_eq_num (search_fights args) (-1)).
  { intros [= <- <-]. left. split; [done|]. simpl.
    unfold streams_created. by rewrite omap_app, app_nil_r. }
  destruct (strict_eq_num (search_zones args) (-1)).
  { intros [= <- <-]. left. split; [done|]. simpl.
    unfold streams_created. by rewrite omap_app, app_nil_r. }
  destruct (truthy_num (search_fights args)).
  { destruct (js_index _ _) as [fight|].
    - intros Hstop. right.
      change (write_and_exit args (inl fight) s = Stop o s') in Hstop.
      rewrite write_and_exit_stops in Hstop.
      by eapply record_stop_outcome.
    - intros [= <- _]. right. apply list_elem_of_further, list_elem_of_here. }
  destruct (truthy_num (search_zones args)).
  { destruct (js_index _ _) as [zone|].
    - intros Hstop. right.
      change (write_and_exit args (inr zone) s = Stop o s') in Hstop.
      rewrite write_and_exit_stops in Hstop.
      by eapply record_stop_outcome.
    - intros [= <- _]. right.
      do 2 apply list_elem_of_further. apply list_elem_of_here. }
  destruct (negb (is_null (fight_regex args))).
  { unfold mbind at 1, proc_bind at 1, SplitLog.make_regex.
    destruct (new_RegExp _ _) as [regex|]; simpl.
    2:{ intros [= <- _]. right.
        do 3 apply list_elem_of_further. apply list_elem_of_here. }
    intros Hstop.
    eapply (loop_then_exit_outcome _ _ s o s' (fight_loop_write_each args regex _))
      in Hstop as [[-> ->]|?]; auto. }
  destruct (negb (is_null (zone_regex args))).
  { unfold mbind at 1, proc_bind at 1, SplitLog.make_regex.
    destruct (new_RegExp _ _) as [regex|]; simpl.
    2:{ intros [= <- _]. right.
        do 3 apply list_elem_of_further. apply list_elem_of_here. }
    intros Hstop.
    eapply (loop_then_exit_outcome _ _ s o s' (zone_loop_write_each args regex _))
      in Hstop as [[-> ->]|?]; auto. }
  intros [= <- _]. right. apply list_elem_of_here.
Qed.

Lemma script_outcome (disk : gmap string (list string)) o s' :
  SplitLog.script args (SplitLog.initial disk) = Stop o s' ->
  o = Exited 0 /\ streams_created (trace s') = [] \/
  o ∈ [Exited (-1); Exited (-2); Exited (-3); Exited (-4); Uncaught; Drained].
Proof.
  unfold SplitLog.script.
  destruct (is_null (file args)).
  { intros [= <- _]. right. apply list_elem_of_here. }
  destruct (negb (numExclusiveArgs args =? 1)).
  { intros [= <- _]. right. apply list_elem_of_further, list_elem_of_here. }
  unfold mbind at 1, proc_bind at 1, SplitLog.makeCollectorFromPrepass.
  unfold mbind at 1, proc_bind at 1, SplitLog.logFileName, createReadStream.
  destruct (file args) as [| |f]; simpl.
  1,2: intros [= <- _]; right;
       do 4 apply list_elem_of_further; apply list_elem_of_here.
  destruct (disk !! f) as [input|]; simpl.
  2:{ intros [= <- _]. right.
      do 4 apply list_elem_of_further. apply list_elem_of_here. }
  intros Hd. apply dispatch_outcome in Hd; [|done].
  destruct Hd as [[-> Hstreams]|Hin]; [by left|right].
  rewrite !elem_of_cons in Hin.
  destruct Hin as [-> | [-> | [-> | [-> | [-> | Hin]]]]].
  - apply list_elem_of_here.
  - do 2 apply list_elem_of_further. apply list_elem_of_here.
  - do 3 apply list_elem_of_further. apply list_elem_of_here.
  - do 4 apply list_elem_of_further. apply list_elem_of_here.
  - do 5 apply list_elem_of_further. apply list_elem_of_here.
  - by apply not_elem_of_nil in Hin.
Qed.

(** X6.  A run that ends through [process.exit] does so with one of the
    codes 0, -1, -2, -3 and -4.  The value 1 that [errorFunc] stores in
    [exitCode] is never the exit code, since [process.exit(exitCode)] is
    reached only while [exitCode] is still 0; and a run that exits with
    code 0 has created no output file. *)
Theorem exit_code_is_never_one (disk : gmap string (list string)) (code : Z) :
  (SplitLog.run args disk).1 = Exited code ->
  code ∈ [0; -1; -2; -3; -4] /\
  (code = 0 -> streams_created (trace (SplitLog.run args disk).2) = []).
Proof.
  unfold SplitLog.run, SplitLog.ending.
  destruct (SplitLog.script args (SplitLog.initial disk)) as [[] s'|o s'] eqn:Hs;
    [done|].
  simpl. intros ->.
  apply script_outcome in Hs as [[Hcode Hstreams]|Hin].
  - injection Hcode as ->. split; [apply list_elem_of_here|done].
  - assert (code = -1 \/ code = -2 \/ code = -3 \/ code = -4) as Hcode.
    { rewrite !elem_of_cons in Hin.
      destruct Hin as [Heq | [Heq | [Heq | [Heq | [Heq | [Heq | Hin]]]]]];
        try discriminate Heq; try (injection Heq as ->; auto).
      by apply not_elem_of_nil in Hin. }
    split; [|lia].
    destruct Hcode as [-> | [-> | [-> | ->]]].
    + apply list_elem_of_further, list_elem_of_here.
    + do 2 apply list_elem_of_further. apply list_elem_of_here.
    + do 3 apply list_elem_of_further. apply list_elem_of_here.
    + do 4 apply list_elem_of_further. apply list_elem_of_here.
Qed.

End ExitStatus.

(** ** The order of the reader and writer events *)

Section ReaderWriter.

Context `{SC : SplitterClass} `{AC : AnonymizerClass} `{RL : ReadlineClass}.
Variable args : SplitLogArgs.

(** X9.  In a call of [writeFile] that opens its output, the reader is
    closed during the first line after which the splitter is done, or at
    the end of the log.  The lines handled before [writer.end()] are a
    prefix of the log; the splitter is done after the last of them unless
    the whole log was read, and it was not done after any earlier one.
    The lines handled after [writer.end()] are the lines of the log that
    come next, no more of them than the chunk at hand holds. *)
Theorem close_at_first_done (out startLine endLine : string) (s : state)
    (f : string) (input : list string) :
  file args = JSVal f ->
  files s !! f = Some input ->
  is_null (force args) = false \/ files s !! out = None ->
  let sp := new_Splitter startLine endLine true
                         (nullish (analysis_filter args) false) in
  exists s' before after,
    SplitLog.writeFile args out (Some startLine) (Some endLine) s = Next Pending s' /\
    trace s' = trace s ++ before ++ EWriterEnd out :: after /\
    on_lines before ++ on_lines after `prefix_of` input /\
    (on_lines before <> input ->
     isDone (splitter_after sp (on_lines before)) = true) /\
    (forall k : nat, (0 < k < length (on_lines before))%nat ->
                     isDone (splitter_after sp (take k (on_lines before))) = false) /\
    (length (on_lines after) <=
       buffered input (drop (length (on_lines before)) input))%nat.
Proof.
  intros Hfile Hin Hopen sp.
  destruct (writeFile_opened args out startLine endLine s f input Hfile Hin Hopen)
    as (s' & mid & post & Hrun & Htr & Hmid & Hon & _ & Hpost & _).
  fold sp in Hon, Htr.
  set (unread := drop (length (lines_fed sp input)) input) in *.
  set (late := take (buffered input unread) unread) in *.
  assert (on_lines post = []) as Hpost'.
  { destruct (nullish (no_anonymize args) false); [by rewrite Hpost|].
    destruct Hpost as (vs & -> & Hvs & _).
    apply no_on_lines, Forall_cons_2; [done|].
    eapply Forall_impl; [exact Hvs|]. by intros []. }
  exists s',
    ([ENewAnonymizer; ECreateReadStream (JSVal f);
      ECreateWriteStream out (if is_null (force args) then flags_wx else flags_w);
      ENewSplitter startLine endLine true (nullish (analysis_filter args) false)]
     ++ mid),
    (EConsoleLog ("Wrote: " +:+ out) :: post ++ [EWriterClose out] ++ (EOnLine <$> late)).
  assert (on_lines
            ([ENewAnonymizer; ECreateReadStream (JSVal f);
              ECreateWriteStream out
                (if is_null (force args) then flags_wx else flags_w);
              ENewSplitter startLine endLine true
                (nullish (analysis_filter args) false)] ++ mid) =
          lines_fed sp input) as ->.
  { by rewrite on_lines_app, Hon. }
  assert (on_lines (EConsoleLog ("Wrote: " +:+ out)
                      :: post ++ [EWriterClose out] ++ (EOnLine <$> late)) = late)
    as ->.
  { change (EConsoleLog ("Wrote: " +:+ out)
              :: post ++ [EWriterClose out] ++ (EOnLine <$> late))
      with ([EConsoleLog ("Wrote: " +:+ out)]
              ++ post ++ [EWriterClose out] ++ (EOnLine <$> late)).
    by rewrite !on_lines_app, Hpost', on_lines_fmap. }
  split; [done|]. split; [by rewrite Htr, <- !(assoc_L (++))|].
  split.
  { destruct (lines_fed_prefix sp input) as [k Hk].
    assert (unread = k) as Hunread.
    { unfold unread. rewrite Hk at 2. by rewrite drop_app_length. }
    rewrite Hk at 2. apply prefix_app.
    unfold late. rewrite Hunread. apply prefix_take. }
  split; [apply lines_fed_done|].
  split; [apply lines_fed_not_done_before|].
  unfold late. rewrite length_take. fold unread. lia.
Qed.

(** X10.  In a call of [writeFile] that opens its output, the writer is
    ended once and closed once, in that order.  Every write comes before
    [writer.end()]; between the end and the close there is no write; and
    after [writer.close()] the trace has line events only, which write
    nothing, as the splitter is done by then. *)
Theorem no_write_after_end (out startLine endLine : string) (s : state)
    (f : string) (input : list string) :
  file args = JSVal f ->
  files s !! f = Some input ->
  is_null (force args) = false \/ files s !! out = None ->
  exists s' before between late,
    SplitLog.writeFile args out (Some startLine) (Some endLine) s = Next Pending s' /\
    trace s' = trace s ++ before ++ [EWriterEnd out] ++ between
                       ++ [EWriterClose out] ++ (EOnLine <$> late) /\
    Forall (fun e => is_writer_end e = false) before /\
    Forall (fun e => is_write e = false /\ is_writer_end e = false) between.
Proof.
  intros Hfile Hin Hopen.
  destruct (writeFile_opened args out startLine endLine s f input Hfile Hin Hopen)
    as (s' & mid & post & Hrun & Htr & Hmid & _ & _ & Hpost & _).
  eexists s',
    ([ENewAnonymizer; ECreateReadStream (JSVal f);
      ECreateWriteStream out (if is_null (force args) then flags_wx else flags_w);
      ENewSplitter startLine endLine true (nullish (analysis_filter args) false)]
     ++ mid),
    (EConsoleLog ("Wrote: " +:+ out) :: post), _.
  split; [done|]. split; [by rewrite Htr, <- !(assoc_L (++))|]. split.
  - apply Forall_app_2; [by repeat constructor|].
    eapply Forall_impl; [exact Hmid|]. by intros [].
  - apply Forall_cons_2; [done|].
    destruct (nullish (no_anonymize args) false); [by rewrite Hpost|].
    destruct Hpost as (vs & -> & Hvs & _).
    apply Forall_cons_2; [done|].
    eapply Forall_impl; [exact Hvs|]. by intros [].
Qed.

End ReaderWriter.

(** ** The further properties on the scenario log *)

Section ScenarioRuns.

#[local] Existing Instances Fixture.tools Fixture.splitters Fixture.anonymizers
  Fixture.readlines
  Fixture.regexps.

(** [-lf -1] and [-lz -1] on the scenario log. *)
Lemma listing_writes_nothing_witness :
  file (Fixture.fight_index (-1)) = JSVal "log" /\
  Fixture.scenario_disk !! "log" = Some Fixture.scenario_log /\
  numExclusiveArgs (Fixture.fight_index (-1)) = 1 /\
  numExclusiveArgs (Fixture.zone_index (-1)) = 1 /\
  Fixture.run (Fixture.fight_index (-1)) Fixture.scenario_disk =
    (Exited 0,
     {| trace := [ECreateReadStream (JSVal "log"); EPrintCollectedFights];
        exitCode := 0; files := Fixture.scenario_disk |}) /\
  Fixture.run (Fixture.zone_index (-1)) Fixture.scenario_disk =
    (Exited 0,
     {| trace := [ECreateReadStream (JSVal "log"); EPrintCollectedZones];
        exitCode := 0; files := Fixture.scenario_disk |}).
Proof.
  do 4 (split; [reflexivity|]). split.
  - exact (proj1 (listing_writes_nothing (Fixture.fight_index (-1))
                    Fixture.scenario_disk "log" Fixture.scenario_log
                    eq_refl eq_refl eq_refl) eq_refl).
  - exact (proj2 (listing_writes_nothing (Fixture.zone_index (-1))
                    Fixture.scenario_disk "log" Fixture.scenario_log
                    eq_refl eq_refl eq_refl) eq_refl).
Defined.

(** [-lf -2] and [-lz -2] on the scenario log. *)
Lemma negative_index_is_missing_witness :
  numExclusiveArgs (Fixture.fight_index (-2)) = 1 /\
  -2 < -1 /\
  Fixture.run (Fixture.fight_index (-2)) Fixture.scenario_disk =
    (Exited (-3),
     {| trace := [ECreateReadStream (JSVal "log");
                  EConsoleError ("Error: missing fight: " +:+ pretty (-2))];
        exitCode := 1; files := Fixture.scenario_disk |}) /\
  Fixture.run (Fixture.zone_index (-2)) Fixture.scenario_disk =
    (Exited (-4),
     {| trace := [ECreateReadStream (JSVal "log");
                  EConsoleError ("Error: missing zone: " +:+ pretty (-2))];
        exitCode := 1; files := Fixture.scenario_disk |}).
Proof.
  split; [reflexivity|]. split; [lia|]. split.
  - refine (proj1 (negative_index_is_missing (Fixture.fight_index (-2))
                     Fixture.scenario_disk "log" Fixture.scenario_log (-2)
                     eq_refl eq_refl eq_refl _) eq_refl).
    lia.
  - refine (proj2 (negative_index_is_missing (Fixture.zone_index (-2))
                     Fixture.scenario_disk "log" Fixture.scenario_log (-2)
                     eq_refl eq_refl eq_refl _) eq_refl).
    lia.
Defined.

(** [-fr Nobody] on the scenario log, whose fights are Boss1 and Boss2. *)
Lemma no_match_exits_silently_witness :
  numExclusiveArgs (Fixture.fight_pattern "Nobody") = 1 /\
  fight_regex (Fixture.fight_pattern "Nobody") = JSVal "Nobody" /\
  new_RegExp "Nobody" "i" = Some "Nobody" /\
  head (filter (fun fight => SplitLog.fight_skipped "Nobody" fight = false)
               (fights (prepass_collector Fixture.scenario_log))) = None /\
  Fixture.run (Fixture.fight_pattern "Nobody") Fixture.scenario_disk =
    (Exited 0, after_prepass "log" Fixture.scenario_disk).
Proof.
  do 4 (split; [reflexivity|]).
  exact (no_match_exits_silently (Fixture.fight_pattern "Nobody")
           Fixture.scenario_disk "log" Fixture.scenario_log "Nobody" "Nobody"
           eq_refl eq_refl eq_refl eq_refl eq_refl eq_refl).
Defined.

(** [-fr Boss] on the scenario log: Boss1 and Boss2 both match, Boss1 is
    written. *)
Lemma first_match_only_witness :
  numExclusiveArgs (Fixture.fight_pattern "Boss") = 1 /\
  fight_regex (Fixture.fight_pattern "Boss") = JSVal "Boss" /\
  new_RegExp "Boss" "i" = Some "Boss" /\
  exists fight,
    head (filter (fun fight => SplitLog.fight_skipped "Boss" fight = false)
                 (fights (prepass_collector Fixture.scenario_log))) = Some fight /\
    Fixture.f_fightName fight = Some "Boss1" /\
    Fixture.run (Fixture.fight_pattern "Boss") Fixture.scenario_disk =
      SplitLog.ending
        (write_and_exit (Fixture.fight_pattern "Boss") (Fixture.fight_record fight)
           (after_prepass "log" Fixture.scenario_disk)).
Proof.
  do 3 (split; [reflexivity|]).
  eexists. split; [reflexivity|]. split; [reflexivity|].
  exact (first_match_only (Fixture.fight_pattern "Boss")
           Fixture.scenario_disk "log" Fixture.scenario_log "Boss" "Boss" _
           eq_refl eq_refl eq_refl eq_refl eq_refl eq_refl).
Defined.

(** [-zr A] on the scenario log. *)
Lemma zone_pattern_is_not_used_witness :
  zone_regex (Fixture.zone_pattern "A") = JSVal "A" /\
  numExclusiveArgs (Fixture.zone_pattern "A") = 1 /\
  SplitLog.dispatch (Fixture.zone_pattern "A")
      (prepass_collector Fixture.scenario_log)
      (after_prepass "log" Fixture.scenario_disk) =
    (regex ← SplitLog.make_regex JSUndefined;
     SplitLog.fight_loop (Fixture.zone_pattern "A") regex
       (fights (prepass_collector Fixture.scenario_log));;
     code ← get_exitCode;
     process_exit code) (after_prepass "log" Fixture.scenario_disk).
Proof.
  do 2 (split; [reflexivity|]).
  exact (zone_pattern_is_not_used (Fixture.zone_pattern "A") "A"
           (prepass_collector Fixture.scenario_log)
           (after_prepass "log" Fixture.scenario_disk) eq_refl eq_refl).
Defined.

(** The listing run exits with 0, the run for a missing fight with -3. *)
Lemma exit_code_is_never_one_witness :
  ((Fixture.run (Fixture.fight_index (-1)) Fixture.scenario_disk).1 = Exited 0 /\
   0 ∈ [0; -1; -2; -3; -4] /\
   (0 = 0 ->
    streams_created
      (trace (Fixture.run (Fixture.fight_index (-1)) Fixture.scenario_disk).2) = [])) /\
  ((Fixture.run (Fixture.fight_index 3) Fixture.scenario_disk).1 = Exited (-3) /\
   -3 ∈ [0; -1; -2; -3; -4]).
Proof.
  split.
  - split; [reflexivity|].
    exact (exit_code_is_never_one (Fixture.fight_index (-1)) Fixture.scenario_disk 0
             eq_refl).
  - split; [reflexivity|].
    exact (proj1 (exit_code_is_never_one (Fixture.fight_index 3)
                    Fixture.scenario_disk (-3) eq_refl)).
Defined.

(** [-lf 1 --force] over an older [Boss1.log]: the log itself is not an
    output, and is kept. *)
Lemma run_changes_one_file_witness :
  ("log" ∉ streams_created
     (trace (Fixture.run (Fixture.fight_index_force 1) Fixture.disk_with_output).2)) /\
  files (Fixture.run (Fixture.fight_index_force 1) Fixture.disk_with_output).2 !! "log"
    = Fixture.disk_with_output !! "log" /\
  files (Fixture.run (Fixture.fight_index_force 1) Fixture.disk_with_output).2
    !! "Boss1.log" <> Fixture.disk_with_output !! "Boss1.log".
Proof.
  assert ("log" ∉ streams_created
            (trace (Fixture.run (Fixture.fight_index_force 1)
                      Fixture.disk_with_output).2)) as Hlog.
  { vm_compute. intros Hin. apply list_elem_of_singleton in Hin. discriminate Hin. }
  split; [exact Hlog|]. split.
  - exact (proj2 (run_changes_one_file (Fixture.fight_index_force 1)
                    Fixture.disk_with_output) "log" Hlog).
  - vm_compute. discriminate.
Defined.

(** [-lf 1] on the scenario log. *)
Lemma outputs_come_from_records_witness :
  file (Fixture.fight_index 1) = JSVal "log" /\
  Fixture.scenario_disk !! "log" = Some Fixture.scenario_log /\
  streams_created (trace (Fixture.run (Fixture.fight_index 1) Fixture.scenario_disk).2)
    = ["Boss1.log"] /\
  (forall p,
     p ∈ streams_created
           (trace (Fixture.run (Fixture.fight_index 1) Fixture.scenario_disk).2) ->
     exists r, r ∈ all_records (prepass_collector Fixture.scenario_log) /\
               p = generateFileName r /\
               is_Some (record_startLine r) /\ is_Some (record_endLine r)) /\
  (forall sl el g af,
     (sl, el, g, af) ∈
       splitters_built
         (trace (Fixture.run (Fixture.fight_index 1) Fixture.scenario_disk).2) ->
     exists r, r ∈ all_records (prepass_collector Fixture.scenario_log) /\
               record_startLine r = Some sl /\ record_endLine r = Some el /\
               g = true /\
               af = nullish (analysis_filter (Fixture.fight_index 1)) false).
Proof.
  do 3 (split; [reflexivity|]).
  exact (outputs_come_from_records (Fixture.fight_index 1) Fixture.scenario_disk
           "log" Fixture.scenario_log eq_refl eq_refl).
Defined.

(** Boss1 of the scenario log: the reader is closed at [FightEnd], the
    fifth of the nine lines, and all nine lines reach the handler. *)
Lemma close_at_first_done_witness :
  file (Fixture.fight_index 1) = JSVal "log" /\
  files (SplitLog.initial Fixture.scenario_disk) !! "log" = Some Fixture.scenario_log /\
  (is_null (force (Fixture.fight_index 1)) = false \/
   files (SplitLog.initial Fixture.scenario_disk) !! "Boss1.log" = None) /\
  on_lines (trace (final (SplitLog.writeFile (Fixture.fight_index 1) "Boss1.log"
                            (Some "FightStart:Boss1") (Some "FightEnd")
                            (SplitLog.initial Fixture.scenario_disk)))) =
    Fixture.scenario_log /\
  exists s' before after,
    SplitLog.writeFile (Fixture.fight_index 1) "Boss1.log"
      (Some "FightStart:Boss1") (Some "FightEnd")
      (SplitLog.initial Fixture.scenario_disk) = Next Pending s' /\
    trace s' = trace (SplitLog.initial Fixture.scenario_disk)
               ++ before ++ EWriterEnd "Boss1.log" :: after /\
    on_lines before ++ on_lines after `prefix_of` Fixture.scenario_log /\
    (on_lines before <> Fixture.scenario_log ->
     isDone (splitter_after (new_Splitter "FightStart:Boss1" "FightEnd" true false)
                            (on_lines before)) = true) /\
    (forall k : nat, (0 < k < length (on_lines before))%nat ->
       isDone (splitter_after (new_Splitter "FightStart:Boss1" "FightEnd" true false)
                              (take k (on_lines before))) = false) /\
    (length (on_lines after) <=
       buffered Fixture.scenario_log
                (drop (length (on_lines before)) Fixture.scenario_log))%nat.
Proof.
  split; [reflexivity|]. split; [reflexivity|]. split; [left; reflexivity|].
  split; [reflexivity|].
  exact (close_at_first_done (Fixture.fight_index 1) "Boss1.log"
           "FightStart:Boss1" "FightEnd" (SplitLog.initial Fixture.scenario_disk)
           "log" Fixture.scenario_log eq_refl eq_refl (or_introl eq_refl)).
Defined.

(** Boss1 of the scenario log. *)
Lemma no_write_after_end_witness :
  file (Fixture.fight_index 1) = JSVal "log" /\
  files (SplitLog.initial Fixture.scenario_disk) !! "log" = Some Fixture.scenario_log /\
  (is_null (force (Fixture.fight_index 1)) = false \/
   files (SplitLog.initial Fixture.scenario_disk) !! "Boss1.log" = None) /\
  exists s' before between late,
    SplitLog.writeFile (Fixture.fight_index 1) "Boss1.log"
      (Some "FightStart:Boss1") (Some "FightEnd")
      (SplitLog.initial Fixture.scenario_disk) = Next Pending s' /\
    trace s' = trace (SplitLog.initial Fixture.scenario_disk) ++
               before ++ [EWriterEnd "Boss1.log"] ++ between ++
               [EWriterClose "Boss1.log"] ++ (EOnLine <$> late) /\
    Forall (fun e => is_writer_end e = false) before /\
    Forall (fun e => is_write e = false /\ is_writer_end e = false) between.
Proof.
  split; [reflexivity|]. split; [reflexivity|]. split; [left; reflexivity|].
  exact (no_write_after_end (Fixture.fight_index 1) "Boss1.log"
           "FightStart:Boss1" "FightEnd" (SplitLog.initial Fixture.scenario_disk)
           "log" Fixture.scenario_log eq_refl eq_refl (or_introl eq_refl)).
Defined.


End ScenarioRuns.

(** [-fr "("] with a [RegExp] that rejects the pattern. *)
Lemma bad_pattern_is_uncaught_witness :
  numExclusiveArgs (Fixture.fight_pattern "(") = 1 /\
  fight_regex (Fixture.fight_pattern "(") = JSVal "(" /\
  @new_RegExp Fixture.checked_regexps "(" "i" = None /\
  @SplitLog.run Fixture.tools Fixture.splitters Fixture.anonymizers
      Fixture.readlines Fixture.checked_regexps
      (Fixture.fight_pattern "(") Fixture.scenario_disk =
    (Uncaught, after_prepass "log" Fixture.scenario_disk).
Proof.
  do 3 (split; [reflexivity|]).
  exact (@bad_pattern_is_uncaught Fixture.tools Fixture.splitters Fixture.anonymizers
           Fixture.readlines Fixture.checked_regexps (Fixture.fight_pattern "(")
           Fixture.scenario_disk "log" Fixture.scenario_log "("
           eq_refl eq_refl eq_refl eq_refl eq_refl).
Defined.

(** ** A log that cannot be read *)

Section Unreadable.

Context `{ET : EncounterTools} `{SC : SplitterClass} `{AC : AnonymizerClass}
        `{RL : ReadlineClass} `{RE : RegExpEngine}.
Variable args : SplitLogArgs.

(** X12.  The script has no handler for a log that cannot be opened:
    whatever the one selector is, the run ends in the prepass with the
    uncaught stream error, before any listing, error message or output
    file, and the disk is unchanged. *)
Theorem unreadable_log_is_uncaught (disk : gmap string (list string)) (f : string) :
  file args = JSVal f ->
  disk !! f = None ->
  numExclusiveArgs args = 1 ->
  SplitLog.run args disk = (Uncaught, after_prepass f disk).
Proof.
  intros Hfile Hnone Hone.
  unfold SplitLog.run, SplitLog.script, SplitLog.logFileName.
  rewrite Hfile, Hone. simpl.
  unfold SplitLog.makeCollectorFromPrepass, mbind, proc_bind, createReadStream.
  simpl. by rewrite Hnone.
Qed.

End Unreadable.

(** [-lf 1] on a disk without the log. *)
Lemma unreadable_log_is_uncaught_witness :
  file (Fixture.fight_index 1) = JSVal "log" /\
  (∅ : gmap string (list string)) !! "log" = None /\
  numExclusiveArgs (Fixture.fight_index 1) = 1 /\
  Fixture.run (Fixture.fight_index 1) ∅ = (Uncaught, after_prepass "log" ∅).
Proof.
  do 3 (split; [reflexivity|]).
  exact (@unreadable_log_is_uncaught Fixture.tools Fixture.splitters
           Fixture.anonymizers Fixture.readlines Fixture.regexps (Fixture.fight_index 1) ∅ "log"
           eq_refl eq_refl eq_refl).
Defined.
